(** * The Yelp data pipeline: split, upload, load

    A shallow embedding of [src/utils.py], [src/conn.py] and
    [src/process_pipeline.py], and the properties of the pipeline proved
    on it.

    Python [str] values are modelled as lists of bytes ([list ascii], the
    UTF-8 encoding of the text).  Every string operation the pipeline uses
    searches for ASCII separators only, and those never occur inside a
    multi-byte UTF-8 sequence, so the byte-level operations agree with
    Python's code-point-level ones.

    [os.path] is CPython 3.13's [posixpath].  The file system is a tree of
    directories and regular files without symbolic links, in which a path
    leads where its [abspath] says; the listing order of a directory is the
    order of its entries in the tree.  Text files end their lines with a
    line feed.  The libraries behind the pipeline (json, configparser,
    boto3, snowflake) and what the services answer are the fields of the
    class [Externals]. *)

From Stdlib Require Import String DecimalString DecimalNat.
From Stdlib Require Import List Ascii ZArith Arith Lia Bool Permutation.
Import ListNotations.

Set Warnings "-register-all".

Definition str := list ascii.

(** String literals: [lit "abc"] is the Python literal ["abc"]. *)
Abbreviation lit s := (String.list_ascii_of_string s%string) (only parsing).

(** ** Python's [str] methods *)

Module Str.

Fixpoint eqb (a b : str) : bool :=
  match a, b with
  | [], [] => true
  | x :: a', y :: b' => Ascii.eqb x y && eqb a' b'
  | _, _ => false
  end.

(** [s.startswith(p)] *)
Fixpoint startswith (p s : str) : bool :=
  match p, s with
  | [], _ => true
  | x :: p', y :: s' => Ascii.eqb x y && startswith p' s'
  | _ :: _, [] => false
  end.

(** [s.endswith(suf)] *)
Definition endswith (suf s : str) : bool :=
  startswith (rev suf) (rev s).

(** [s.split(sep)] for a one-character separator: never the empty list. *)
Fixpoint split (sep : ascii) (s : str) : list str :=
  match s with
  | [] => [[]]
  | x :: s' =>
      if Ascii.eqb x sep then [] :: split sep s'
      else match split sep s' with
           | [] => [[x]]
           | w :: ws => (x :: w) :: ws
           end
  end.

(** [sep.join(l)] *)
Fixpoint join (sep : str) (l : list str) : str :=
  match l with
  | [] => []
  | [x] => x
  | x :: rest => x ++ sep ++ join sep rest
  end.

(** [s.lstrip(c)] and [s.rstrip(c)] for a one-character set. *)
Fixpoint lstrip (c : ascii) (s : str) : str :=
  match s with
  | [] => []
  | x :: s' => if Ascii.eqb x c then lstrip c s' else s
  end.

Definition rstrip (c : ascii) (s : str) : str :=
  rev (lstrip c (rev s)).

(** [s.replace(old, new)] for a non-empty [old]: a left-to-right scan that
    replaces each occurrence of [old] and resumes after it; [skip] counts
    the characters of the current occurrence still to be passed over. *)
Fixpoint replace_from (skip : nat) (old new s : str) : str :=
  match s with
  | [] => []
  | x :: s' =>
      match skip with
      | S k => replace_from k old new s'
      | O =>
          if startswith old s
          then new ++ replace_from (length old - 1) old new s'
          else x :: replace_from 0 old new s'
      end
  end.

Definition replace (old new s : str) : str := replace_from 0 old new s.

(** [str(n)], as in [f"{n}"], for a non-negative [int]. *)
Definition of_nat (n : nat) : str :=
  String.list_ascii_of_string
    (DecimalString.NilEmpty.string_of_uint (Nat.to_uint n)).

(** [l[-1]] on the result of a [split], which is never empty. *)
Definition last_item (l : list str) : str := last l [].

(** [l[k:]] for [0 <= k] *)
Definition slice_from {A} (k : nat) (l : list A) : list A := skipn k l.

(** [l[i:j]] for [0 <= i <= j] *)
Definition slice {A} (i j : nat) (l : list A) : list A :=
  firstn (j - i) (skipn i l).

End Str.

(** ** CPython's [posixpath] *)

Module PosixPath.

Definition sep : ascii := "/"%char.
Definition curdir : str := lit ".".
Definition pardir : str := lit "..".

Definition isabs (p : str) : bool := Str.startswith [sep] p.

(** [os.path.join(a, b)] *)
Definition join (a b : str) : str :=
  if isabs b then b
  else if Str.eqb a [] || Str.endswith [sep] a then a ++ b
  else a ++ [sep] ++ b.

(** [os.path.basename(p)]: what follows the last slash. *)
Definition basename (p : str) : str := Str.last_item (Str.split sep p).

(** The loop body of [normpath]; [new_comps] is used as a stack whose top
    is the end of the list. *)
Definition norm_step (initial_slashes : nat) (new_comps : list str)
    (comp : str) : list str :=
  if Str.eqb comp [] || Str.eqb comp curdir then new_comps
  else if negb (Str.eqb comp pardir)
          || (Nat.eqb initial_slashes 0 && Nat.eqb (length new_comps) 0)
          || (negb (Nat.eqb (length new_comps) 0)
              && Str.eqb (last new_comps []) pardir)
  then new_comps ++ [comp]
  else removelast new_comps.

(** POSIX allows one or two initial slashes, and treats three or more as
    one. *)
Definition initial_slashes (p : str) : nat :=
  if Str.startswith [sep] p then
    if Str.startswith [sep; sep] p && negb (Str.startswith [sep; sep; sep] p)
    then 2 else 1
  else 0.

Definition normpath (p : str) : str :=
  match p with
  | [] => curdir
  | _ =>
      let ini := initial_slashes p in
      let comps := fold_left (norm_step ini) (Str.split sep p) [] in
      let path := repeat sep ini ++ Str.join [sep] comps in
      match path with [] => curdir | _ => path end
  end.

(** [os.path.abspath(p)] with [cwd] the value of [os.getcwd()]. *)
Definition abspath (cwd p : str) : str :=
  normpath (if isabs p then p else join cwd p).

(** The component list [relpath] computes for each of its arguments. *)
Definition tail_list (cwd p : str) : list str :=
  match Str.lstrip sep (abspath cwd p) with
  | [] => []
  | t => Str.split sep t
  end.

(** [len(commonprefix([a, b]))] on two component lists. *)
Fixpoint common_len (a b : list str) : nat :=
  match a, b with
  | x :: a', y :: b' => if Str.eqb x y then S (common_len a' b') else 0
  | _, _ => 0
  end.

(** [os.path.relpath(path, start)]; [None] is the [ValueError] raised for
    an empty [path]. *)
Definition relpath (cwd path start : str) : option str :=
  match path with
  | [] => None
  | _ =>
      let start_list := tail_list cwd start in
      let path_list := tail_list cwd path in
      let i := common_len start_list path_list in
      let rel_list :=
        repeat pardir (length start_list - i) ++ Str.slice_from i path_list in
      match rel_list with
      | [] => Some curdir
      | _ => Some (Str.join [sep] rel_list)
      end
  end.

End PosixPath.

(** ** Exceptions and results *)

Inductive exn :=
| FileNotFoundError
| NotADirectoryError
| IsADirectoryError
| FileExistsError
| PermissionError
| JSONDecodeError
| ValueError
| NoSectionError (section : str)
| NoOptionError (option : str)
| BotoError (msg : str)        (* botocore's [BotoCoreError] and [ClientError] *)
| SnowflakeError (msg : str)   (* snowflake.connector's [Error] *)
| Exception (msg : str)        (* any other [Exception] *)
| NonException (msg : str).    (* a [BaseException] that is no [Exception] *)

(** [isinstance(e, Exception)] *)
Definition is_Exception (e : exn) : bool :=
  match e with NonException _ => false | _ => true end.

(** [str(e)]; for the built-in errors only the class is modelled. *)
Definition exn_str (e : exn) : str :=
  match e with
  | FileNotFoundError => lit "No such file or directory"
  | NotADirectoryError => lit "Not a directory"
  | IsADirectoryError => lit "Is a directory"
  | FileExistsError => lit "File exists"
  | PermissionError => lit "Permission denied"
  | JSONDecodeError => lit "Expecting value"
  | ValueError => lit "range() arg 3 must not be zero"
  | NoSectionError section => lit "No section: " ++ section
  | NoOptionError option => lit "No option: " ++ option
  | BotoError msg => msg
  | SnowflakeError msg => msg
  | Exception msg => msg
  | NonException msg => msg
  end.

Inductive result (A : Type) :=
| Ok (a : A)
| Raise (e : exn).
Arguments Ok {A} a.
Arguments Raise {A} e.

(** ** The file system *)

Module FS.

Inductive node :=
| File (data : str)
| Dir (entries : list (str * node)).

Definition is_dir (n : node) : bool :=
  match n with Dir _ => true | File _ => false end.

Fixpoint assoc (name : str) (es : list (str * node)) : option node :=
  match es with
  | [] => None
  | (k, v) :: es' => if Str.eqb k name then Some v else assoc name es'
  end.

(** Replace the entry called [name], or add it at the end. *)
Fixpoint set_entry (name : str) (n : node) (es : list (str * node))
  : list (str * node) :=
  match es with
  | [] => [(name, n)]
  | (k, v) :: es' =>
      if Str.eqb k name then (k, n) :: es' else (k, v) :: set_entry name n es'
  end.

Definition del_entry (name : str) (es : list (str * node))
  : list (str * node) :=
  filter (fun e => negb (Str.eqb (fst e) name)) es.

(** The node a component path leads to from [n]. *)
Fixpoint lookup (cs : list str) (n : node) : option node :=
  match cs with
  | [] => Some n
  | c :: cs' =>
      match n with
      | File _ => None
      | Dir es =>
          match assoc c es with
          | Some ch => lookup cs' ch
          | None => None
          end
      end
  end.

(** [shutil.rmtree]: the directory at [cs] goes, with all it holds.  The
    root itself cannot be removed. *)
Fixpoint rmtree (cs : list str) (n : node) : result node :=
  match cs with
  | [] => Raise PermissionError
  | c :: cs' =>
      match n with
      | File _ => Raise NotADirectoryError
      | Dir es =>
          match assoc c es with
          | None => Raise FileNotFoundError
          | Some ch =>
              match cs' with
              | [] =>
                  match ch with
                  | File _ => Raise NotADirectoryError
                  | Dir _ => Ok (Dir (del_entry c es))
                  end
              | _ =>
                  match rmtree cs' ch with
                  | Ok ch' => Ok (Dir (set_entry c ch' es))
                  | Raise e => Raise e
                  end
              end
          end
      end
  end.

(** A fresh chain of nested empty directories. *)
Fixpoint mkchain (cs : list str) : node :=
  match cs with
  | [] => Dir []
  | c :: cs' => Dir [(c, mkchain cs')]
  end.

(** [os.makedirs(path, exist_ok=True)] *)
Fixpoint makedirs (cs : list str) (n : node) : result node :=
  match n with
  | File _ =>
      Raise (match cs with [] => FileExistsError | _ => NotADirectoryError end)
  | Dir es =>
      match cs with
      | [] => Ok n
      | c :: cs' =>
          match assoc c es with
          | Some ch =>
              match makedirs cs' ch with
              | Ok ch' => Ok (Dir (set_entry c ch' es))
              | Raise e => Raise e
              end
          | None => Ok (Dir (es ++ [(c, mkchain cs')]))
          end
      end
  end.

(** [open(path, "w")] followed by writing [data] and closing. *)
Fixpoint write_file (cs : list str) (data : str) (n : node) : result node :=
  match cs with
  | [] => Raise IsADirectoryError
  | c :: cs' =>
      match n with
      | File _ => Raise NotADirectoryError
      | Dir es =>
          match cs' with
          | [] =>
              match assoc c es with
              | Some (Dir _) => Raise IsADirectoryError
              | _ => Ok (Dir (set_entry c (File data) es))
              end
          | _ =>
              match assoc c es with
              | None => Raise FileNotFoundError
              | Some ch =>
                  match write_file cs' data ch with
                  | Ok ch' => Ok (Dir (set_entry c ch' es))
                  | Raise e => Raise e
                  end
              end
          end
      end
  end.

(** [open(path, "r")] followed by reading everything. *)
Definition read_file (cs : list str) (n : node) : result str :=
  match lookup cs n with
  | Some (File data) => Ok data
  | Some (Dir _) => Raise IsADirectoryError
  | None => Raise FileNotFoundError
  end.

(** [os.listdir] *)
Definition listdir (cs : list str) (n : node) : result (list str) :=
  match lookup cs n with
  | Some (Dir es) => Ok (map fst es)
  | Some (File _) => Raise NotADirectoryError
  | None => Raise FileNotFoundError
  end.

Definition dirs (es : list (str * node)) : list str :=
  map fst (filter (fun e => is_dir (snd e)) es).

Definition nondirs (es : list (str * node)) : list str :=
  map fst (filter (fun e => negb (is_dir (snd e))) es).

(** [os.walk(top)], top-down, started at the node [top] names: one
    [(root, dirs, files)] triple per directory. *)
Fixpoint walk (top : str) (n : node) : list (str * list str * list str) :=
  match n with
  | File _ => []
  | Dir es =>
      (top, dirs es, nondirs es)
      :: flat_map (fun e => walk (PosixPath.join top (fst e)) (snd e)) es
  end.

(** The names a directory entry can have: not empty, not [.] or [..], and
    without a slash. *)
Definition valid_name (c : str) : bool :=
  negb (Str.eqb c []) && negb (Str.eqb c PosixPath.curdir)
  && negb (Str.eqb c PosixPath.pardir)
  && negb (existsb (Ascii.eqb PosixPath.sep) c).

(** Every entry below [n] has a valid name. *)
Fixpoint wf (n : node) : bool :=
  match n with
  | File _ => true
  | Dir es => forallb (fun e => valid_name (fst e) && wf (snd e)) es
  end.

(** The regular files below [n], each as its component path from [n], in
    the order [walk] meets them. *)
Fixpoint file_paths (n : node) : list (list str) :=
  match n with
  | File _ => []
  | Dir es =>
      map (fun name => [name]) (nondirs es)
      ++ flat_map (fun e => map (cons (fst e)) (file_paths (snd e))) es
  end.

(** Iterating over a text file: the lines, each with its newline. *)
Fixpoint readlines (s : str) : list str :=
  match s with
  | [] => []
  | x :: s' =>
      if Ascii.eqb x "010"%char then [x] :: readlines s'
      else match readlines s' with
           | [] => [[x]]
           | l :: ls => (x :: l) :: ls
           end
  end.

End FS.

(** ** The world the pipeline runs in *)

(** The parsed settings: [config["staging"][...]], [config["aws"][...]] and
    [config["snowflake"][...]], whose keys are pairwise distinct. *)
Record config := {
  input_dataset_path : str;
  output_folder_path : str;
  no_of_lines : Z;
  aws_access_key_id : str;
  aws_secret_access_key : str;
  aws_region : str;
  s3_bucket_name : str;
  s3_bucket_path : str;
  private_key_file_path : str;
  raw_database : str;
  raw_schema : str;
  warehouse : str;
  account : str;
  role : str;
  user : str
}.

(** One call [s3_client.upload_file(local_file_path, bucket_name, s3_key)]. *)
Record upload_request := {
  req_local : str;
  req_bucket : str;
  req_key : str
}.

Record world := {
  cwd_tail : str;                      (* [os.getcwd()] without its first slash *)
  root : FS.node;                      (* the directory [/] *)
  stdout : list str;                   (* the printed lines, oldest first *)
  s3_requests : list upload_request;   (* the upload calls made, oldest first *)
  sql_executed : list str              (* the statements executed, oldest first *)
}.

Definition getcwd (w : world) : str := PosixPath.sep :: cwd_tail w.

Definition set_root (n : FS.node) (w : world) : world :=
  {| cwd_tail := cwd_tail w; root := n; stdout := stdout w;
     s3_requests := s3_requests w; sql_executed := sql_executed w |}.

Definition add_stdout (line : str) (w : world) : world :=
  {| cwd_tail := cwd_tail w; root := root w; stdout := stdout w ++ [line];
     s3_requests := s3_requests w; sql_executed := sql_executed w |}.

Definition add_request (r : upload_request) (w : world) : world :=
  {| cwd_tail := cwd_tail w; root := root w; stdout := stdout w;
     s3_requests := s3_requests w ++ [r]; sql_executed := sql_executed w |}.

Definition add_sql (q : str) (w : world) : world :=
  {| cwd_tail := cwd_tail w; root := root w; stdout := stdout w;
     s3_requests := s3_requests w; sql_executed := sql_executed w ++ [q] |}.

(** The libraries the pipeline calls and the services behind them. *)
Class Externals := {
  json : Type;
  (** [json.loads(line)]; [None] is a [JSONDecodeError]. *)
  json_loads : str -> option json;
  (** [json.dumps(data, indent=indent)] of a list *)
  json_dumps : nat -> list json -> str;
  (** configparser's reading of the text of a settings file: its sections
      of key-value pairs, or the parsing error *)
  ini_sections : str -> result (list (str * list (str * str)));
  (** [int(text)]; [None] is a [ValueError]. *)
  py_int : str -> option Z;
  (** [boto3.client(...)]: the error it raises, if any *)
  boto3_client_error : config -> world -> option exn;
  (** the error [s3_client.upload_file] raises on a request, if any *)
  s3_upload_error : upload_request -> world -> option exn;
  (** [load_pem_private_key] and [private_bytes]: PEM text to DER bytes *)
  pem_to_der : str -> result str;
  (** the error [snowflake.connector.connect] raises, if any *)
  snowflake_connect_error : config -> str -> world -> option exn;
  (** the error [cursor.execute] raises on a statement, if any *)
  execute_error : str -> world -> option exn
}.

(** ** Computations: a state and exception monad over the world *)

Definition M (A : Type) : Type := world -> result A * world.

Definition ret {A} (a : A) : M A := fun w => (Ok a, w).

Definition raise {A} (e : exn) : M A := fun w => (Raise e, w).

Definition bind {A B} (c : M A) (k : A -> M B) : M B :=
  fun w =>
    match c w with
    | (Ok a, w') => k a w'
    | (Raise e, w') => (Raise e, w')
    end.

Declare Scope py_scope.
Delimit Scope py_scope with py.
Notation "x <- c ;; k" := (bind c (fun x => k))
  (at level 61, c at next level, right associativity) : py_scope.
Notation "c ;; k" := (bind c (fun _ => k))
  (at level 61, right associativity) : py_scope.
Open Scope py_scope.

(** [try: body / except BaseException as e: handler(e)]; a handler that
    does not catch [e] raises it again. *)
Definition try_except {A} (body : M A) (handler : exn -> M A) : M A :=
  fun w =>
    match body w with
    | (Ok a, w') => (Ok a, w')
    | (Raise e, w') => handler e w'
    end.

Definition of_result {A} (r : result A) : M A := fun w => (r, w).

Definition of_option {A} (e : exn) (o : option A) : M A :=
  match o with Some a => ret a | None => raise e end.

Fixpoint for_each {A} (l : list A) (body : A -> M unit) : M unit :=
  match l with
  | [] => ret tt
  | x :: l' => body x ;; for_each l' body
  end.

(** A list comprehension whose element expression can raise. *)
Fixpoint map_m {A B} (f : A -> M B) (l : list A) : M (list B) :=
  match l with
  | [] => ret []
  | x :: l' => y <- f x ;; ys <- map_m f l' ;; ret (y :: ys)
  end.

Definition print (line : str) : M unit := fun w => (Ok tt, add_stdout line w).

(** The components the kernel follows to reach [path]. *)
Definition resolve (path : str) : M (list str) :=
  fun w => (Ok (PosixPath.tail_list (getcwd w) path), w).

Definition fs_update (op : FS.node -> result FS.node) : M unit :=
  fun w =>
    match op (root w) with
    | Ok n => (Ok tt, set_root n w)
    | Raise e => (Raise e, w)
    end.

Definition fs_query {A} (op : FS.node -> result A) : M A :=
  fun w => (op (root w), w).

Definition path_exists (path : str) : M bool :=
  cs <- resolve path ;;
  fs_query (fun n => Ok (match FS.lookup cs n with Some _ => true | None => false end)).

Definition rmtree (path : str) : M unit :=
  cs <- resolve path ;; fs_update (FS.rmtree cs).

Definition makedirs (path : str) : M unit :=
  cs <- resolve path ;; fs_update (FS.makedirs cs).

Definition read_text (path : str) : M str :=
  cs <- resolve path ;; fs_query (FS.read_file cs).

Definition write_text (path data : str) : M unit :=
  cs <- resolve path ;; fs_update (FS.write_file cs data).

Definition listdir (path : str) : M (list str) :=
  cs <- resolve path ;; fs_query (FS.listdir cs).

(** [list(os.walk(top))]: an unreadable [top] yields nothing. *)
Definition os_walk (top : str) : M (list (str * list str * list str)) :=
  cs <- resolve top ;;
  fs_query (fun n =>
    Ok (match FS.lookup cs n with Some d => FS.walk top d | None => [] end)).

(** [range(start, stop, step)] *)
Definition py_range (start stop step : Z) : result (list Z) :=
  if (step =? 0)%Z then Raise ValueError
  else
    let n :=
      if (0 <? step)%Z
      then if (start <? stop)%Z then ((stop - start - 1) / step + 1)%Z else 0%Z
      else if (stop <? start)%Z then ((start - stop - 1) / (- step) + 1)%Z else 0%Z
    in
    Ok (map (fun k => (start + Z.of_nat k * step)%Z) (seq 0 (Z.to_nat n))).

Definition nl : str := ["010"%char].
Definition backslash : str := ["092"%char].

(** ** [utils.py] and [conn.py] *)

Section Pipeline.

Context {ext : Externals}.

Fixpoint str_assoc {A} (key : str) (l : list (str * A)) : option A :=
  match l with
  | [] => None
  | (k, v) :: l' => if Str.eqb k key then Some v else str_assoc key l'
  end.

(** [config.read(config_path)]: a file that cannot be opened is skipped. *)
Definition config_read (config_path : str)
  : M (list (str * list (str * str))) :=
  try_except
    (text <- read_text config_path ;; of_result (ini_sections text))
    (fun e =>
       match e with
       | FileNotFoundError | NotADirectoryError | IsADirectoryError
       | FileExistsError | PermissionError => ret []
       | _ => raise e
       end).

(** [config.get(section, option)] *)
Definition config_get (sections : list (str * list (str * str)))
    (section option : str) : M str :=
  match str_assoc section sections with
  | None => raise (NoSectionError section)
  | Some options =>
      match str_assoc option options with
      | None => raise (NoOptionError option)
      | Some v => ret v
      end
  end.

(** [config.getint(section, option)] *)
Definition config_getint (sections : list (str * list (str * str)))
    (section option : str) : M Z :=
  v <- config_get sections section option ;;
  of_option ValueError (py_int v).

Definition parse_config (config_path : str) : M config :=
  sections <- config_read config_path ;;
  let get := config_get sections in
  input_dataset_path <- get (lit "STAGING") (lit "input_dataset_path") ;;
  output_folder_path <- get (lit "STAGING") (lit "output_folder_path") ;;
  no_of_lines <- config_getint sections (lit "STAGING") (lit "no_of_lines") ;;
  aws_access_key_id <- get (lit "AWS") (lit "aws_access_key_id") ;;
  aws_secret_access_key <- get (lit "AWS") (lit "aws_secret_access_key") ;;
  aws_region <- get (lit "AWS") (lit "aws_region") ;;
  s3_bucket_name <- get (lit "AWS") (lit "s3_bucket_name") ;;
  s3_bucket_path <- get (lit "AWS") (lit "s3_bucket_path") ;;
  private_key_file_path <- get (lit "SNOWFLAKE") (lit "private_key_file_path") ;;
  raw_database <- get (lit "SNOWFLAKE") (lit "raw_database") ;;
  raw_schema <- get (lit "SNOWFLAKE") (lit "raw_schema") ;;
  warehouse <- get (lit "SNOWFLAKE") (lit "warehouse") ;;
  account <- get (lit "SNOWFLAKE") (lit "account") ;;
  role <- get (lit "SNOWFLAKE") (lit "role") ;;
  user <- get (lit "SNOWFLAKE") (lit "user") ;;
  ret {| input_dataset_path := input_dataset_path;
         output_folder_path := output_folder_path;
         no_of_lines := no_of_lines;
         aws_access_key_id := aws_access_key_id;
         aws_secret_access_key := aws_secret_access_key;
         aws_region := aws_region;
         s3_bucket_name := s3_bucket_name;
         s3_bucket_path := s3_bucket_path;
         private_key_file_path := private_key_file_path;
         raw_database := raw_database;
         raw_schema := raw_schema;
         warehouse := warehouse;
         account := account;
         role := role;
         user := user |}.

(** *** [split_json_file] *)

(** The name of the dataset an input file holds. *)
Definition split_key_of (input_file : str) : str :=
  let base_name :=
    Str.replace (lit ".json") (lit "") (PosixPath.basename input_file) in
  Str.last_item (Str.split "_" base_name).

Definition output_filename_of (split_key : str) (len file_count : nat) : str :=
  split_key ++ lit "_" ++ Str.of_nat len ++ lit "_part_"
    ++ Str.of_nat file_count ++ lit ".json".

(** The body of the [for i in range(0, total_docs, no_of_lines)] loop, with
    the loop-carried [file_count]. *)
Fixpoint split_loop (data : list json) (final_output_dir split_key : str)
    (no_of_lines : Z) (indices : list Z) (file_count : nat) : M unit :=
  match indices with
  | [] => ret tt
  | i :: rest =>
      let split_data :=
        Str.slice (Z.to_nat i) (Z.to_nat (i + no_of_lines)) data in
      let output_filename :=
        output_filename_of split_key (length split_data) file_count in
      let output_path := PosixPath.join final_output_dir output_filename in
      write_text output_path (json_dumps 4 split_data) ;;
      split_loop data final_output_dir split_key no_of_lines rest
        (file_count + 1)
  end.

Definition split_json_file (input_file output_dir : str) (no_of_lines : Z)
  : M unit :=
  let split_key := split_key_of input_file in
  let final_output_dir := PosixPath.join output_dir split_key in
  present <- path_exists final_output_dir ;;
  (if present then rmtree final_output_dir else ret tt) ;;
  makedirs final_output_dir ;;
  text <- read_text input_file ;;
  data <- map_m (fun line => of_option JSONDecodeError (json_loads line))
            (FS.readlines text) ;;
  let total_docs := length data in
  indices <- of_result (py_range 0 (Z.of_nat total_docs) no_of_lines) ;;
  split_loop data final_output_dir split_key no_of_lines indices 1.

(** *** [upload_file_to_s3] and [upload_to_s3] *)

(** [s3_client.upload_file(local_file_path, bucket_name, s3_key)] *)
Definition s3_upload_file (local_file_path bucket_name s3_key : str)
  : M unit :=
  fun w =>
    let r := {| req_local := local_file_path; req_bucket := bucket_name;
                req_key := s3_key |} in
    match s3_upload_error r w with
    | Some e => (Raise e, add_request r w)
    | None => (Ok tt, add_request r w)
    end.

Definition upload_file_to_s3 (bucket_name s3_key local_file_path : str)
  : M unit :=
  try_except
    (s3_upload_file local_file_path bucket_name s3_key ;;
     print (lit "✅ Uploaded: " ++ local_file_path ++ lit " -> s3://"
              ++ bucket_name ++ lit "/" ++ s3_key))
    (fun e =>
       if is_Exception e
       then print (lit "❌ Error uploading " ++ local_file_path ++ lit ": "
                     ++ exn_str e)
       else raise e).

(** [aws_s3_client] of [conn.py] *)
Definition aws_s3_client (config_path : str) : M unit :=
  try_except
    (parsed_config <- parse_config config_path ;;
     fun w =>
       match boto3_client_error parsed_config w with
       | Some e => (Raise e, w)
       | None => (Ok tt, w)
       end)
    (fun e =>
       match e with
       | BotoError msg => raise (Exception (lit "Error creating S3 client: " ++ msg))
       | _ => raise e
       end).

(** An upload task: [(bucket_name, s3_key, local_file_path)]. *)
Definition task : Type := str * str * str.

Definition s3_key_of (s3_prefix relative_path : str) : str :=
  Str.lstrip "/" (s3_prefix ++ lit "/" ++ relative_path).

(** The task of one [file] of a walked directory [root]. *)
Definition upload_task (local_dir bucket_name s3_prefix root file : str)
  : M task :=
  let local_file_path := PosixPath.join root file in
  rel <- (fun w => (match PosixPath.relpath (getcwd w) local_file_path local_dir with
                    | Some r => Ok r
                    | None => Raise ValueError
                    end, w)) ;;
  let relative_path := Str.replace backslash (lit "/") rel in
  let s3_key := s3_key_of s3_prefix relative_path in
  ret (bucket_name, s3_key, local_file_path).

Definition collect_upload_tasks (local_dir bucket_name s3_prefix : str)
  : M (list task) :=
  walked <- os_walk local_dir ;;
  per_root <- map_m (fun '(root, _, files) =>
                       map_m (upload_task local_dir bucket_name s3_prefix root)
                         files)
                walked ;;
  ret (concat per_root).

(** A worker runs one submitted call; what the call raises is kept in the
    call's future and raised nowhere else. *)
Definition run_work_item (call : M unit) : M unit :=
  fun w => (Ok tt, snd (call w)).

Fixpoint remove_nth {A} (i : nat) (l : list A) : list A :=
  match i, l with
  | _, [] => []
  | O, _ :: l' => l'
  | S i', x :: l' => x :: remove_nth i' l'
  end.

(** [executor.map(fn, tasks)] followed by the end of the [with] block:
    every pending call is run by some worker.  Uploads are atomic here and
    [sched] picks which pending call goes next. *)
Fixpoint executor_map (n : nat) (sched : list nat) (fn : task -> M unit)
    (pending : list task) : M unit :=
  match n with
  | O => ret tt
  | S n' =>
      let i := hd 0 sched mod length pending in
      match nth_error pending i with
      | None => ret tt
      | Some t =>
          run_work_item (fn t) ;;
          executor_map n' (tl sched) fn (remove_nth i pending)
      end
  end.

Definition upload_to_s3 (sched : list nat) (config_path : str) : M unit :=
  config <- parse_config config_path ;;
  let local_dir := output_folder_path config in
  let bucket_name := s3_bucket_name config in
  let s3_bucket_path := Str.rstrip "/" (s3_bucket_path config) in
  let s3_prefix := Str.join (lit "/") (Str.slice_from 3 (Str.split "/" s3_bucket_path)) in
  aws_s3_client config_path ;;
  upload_tasks <- collect_upload_tasks local_dir bucket_name s3_prefix ;;
  executor_map (length upload_tasks) sched
    (fun '(bucket_name, s3_key, local_file_path) =>
       upload_file_to_s3 bucket_name s3_key local_file_path)
    upload_tasks ;;
  print (lit "✅ All files uploaded successfully!").

(** *** [snow_conn] and [data_load] *)

(** [snow_conn] of [conn.py] *)
Definition snow_conn (config_path : str) : M unit :=
  try_except
    (parsed_config <- parse_config config_path ;;
     let rsa_private_key := private_key_file_path parsed_config in
     key <- read_text rsa_private_key ;;
     private_key_bytes <- of_result (pem_to_der key) ;;
     (fun w =>
        match snowflake_connect_error parsed_config private_key_bytes w with
        | Some e => (Raise e, w)
        | None => (Ok tt, w)
        end) ;;
     print (lit "Snowflake connection established."))
    (fun e =>
       match e with
       | SnowflakeError msg =>
           raise (Exception
                    (lit "Error occurred while establishing Snowflake connection: "
                       ++ msg))
       | _ => raise e
       end).

(** [cur.execute(query)] *)
Definition execute (query : str) : M unit :=
  fun w =>
    match execute_error query w with
    | Some e => (Raise e, add_sql query w)
    | None => (Ok tt, add_sql query w)
    end.

Definition create_stage_query_of
    (stage_name s3_base_path aws_access_key aws_secret_key : str) : str :=
  nl ++ lit "    CREATE STAGE IF NOT EXISTS " ++ stage_name
  ++ nl ++ lit "    URL = '" ++ s3_base_path ++ lit "'"
  ++ nl ++ lit "    CREDENTIALS = (AWS_KEY_ID = '" ++ aws_access_key
  ++ lit "' AWS_SECRET_KEY = '" ++ aws_secret_key ++ lit "')"
  ++ nl ++ lit "    FILE_FORMAT = (TYPE = 'JSON')"
  ++ nl ++ lit "    ".

Definition create_table_query_of (database schema table_name : str) : str :=
  nl ++ lit "                CREATE TABLE IF NOT EXISTS " ++ database
  ++ lit "." ++ schema ++ lit "." ++ table_name ++ lit " ("
  ++ nl ++ lit "                    data VARIANT"
  ++ nl ++ lit "                )"
  ++ nl ++ lit "                ".

Definition copy_query_of (database schema table_name stage_name : str) : str :=
  nl ++ lit "                COPY INTO " ++ database
  ++ lit "." ++ schema ++ lit "." ++ table_name
  ++ nl ++ lit "                FROM @" ++ stage_name ++ lit "/" ++ table_name
  ++ lit "/"
  ++ nl ++ lit "                FILE_FORMAT = (TYPE = 'JSON', STRIP_OUTER_ARRAY = TRUE)"
  ++ nl ++ lit "                ".

(** The body of [for file in files] for one walked directory [root]. *)
Definition load_file (database schema stage_name root file : str) : M unit :=
  if Str.endswith (lit ".json") file then
    let table_name := PosixPath.basename root in
    let create_table_query := create_table_query_of database schema table_name in
    execute create_table_query ;;
    print (lit "Table " ++ table_name ++ lit " is ready.") ;;
    let copy_query := copy_query_of database schema table_name stage_name in
    execute copy_query ;;
    print (lit "Data from " ++ file ++ lit " loaded into " ++ table_name ++ lit ".")
  else ret tt.

Definition data_load (config_path : str) : M unit :=
  config <- parse_config config_path ;;
  let database := raw_database config in
  let schema := raw_schema config in
  let stage_name := database ++ lit "." ++ schema ++ lit ".S3_STAGE" in
  let s3_base_path := Str.rstrip "/" (s3_bucket_path config) in
  let aws_access_key := aws_access_key_id config in
  let aws_secret_key := aws_secret_access_key config in
  snow_conn config_path ;;
  let create_stage_query :=
    create_stage_query_of stage_name s3_base_path aws_access_key aws_secret_key in
  execute create_stage_query ;;
  print (lit "Stage " ++ stage_name ++ lit " is ready.") ;;
  let local_dir := output_folder_path config in
  walked <- os_walk local_dir ;;
  for_each walked (fun '(root, _, files) =>
    for_each files (load_file database schema stage_name root)) ;;
  print (lit "Data load process completed.").

End Pipeline.

(** ** [process_pipeline.py] *)

Section Orchestrator.

Context {ext : Externals}.

(** The body of [for filename in os.listdir(input_dir)]. *)
Definition process_file (input_dir output_dir : str) (no_of_lines : Z)
    (filename : str) : M unit :=
  if Str.endswith (lit ".json") filename then
    let input_file_path := PosixPath.join input_dir filename in
    print (lit "Processing file: " ++ filename) ;;
    split_json_file input_file_path output_dir no_of_lines
  else ret tt.

Definition process_pipeline (sched : list nat) (config_path : str) : M unit :=
  config <- parse_config config_path ;;
  let input_dir := input_dataset_path config in
  let output_dir := output_folder_path config in
  let no_of_lines := no_of_lines config in
  filenames <- listdir input_dir ;;
  for_each filenames (process_file input_dir output_dir no_of_lines) ;;
  upload_to_s3 sched config_path ;;
  data_load config_path.

End Orchestrator.

(** * The vocabulary of the statements *)

(** ** Paths, the file system, numerals and batches *)

(** What [abspath] normalises: the path itself or the path under [cwd]. *)
Definition full_path (cwd p : str) : str :=
  if PosixPath.isabs p then p else PosixPath.join cwd p.

(** The components [normpath] keeps of an absolute path. *)
Definition comps_of (p : str) : list str :=
  fold_left (PosixPath.norm_step 1) (Str.split PosixPath.sep p) [].

Definition sep_free (w : str) : Prop :=
  existsb (Ascii.eqb PosixPath.sep) w = false.

Definition good_comp (w : str) : Prop := w <> [] /\ sep_free w.

(** The separator [os.path.join] puts after its first argument. *)
Definition sepfix (a : str) : str :=
  if Str.eqb a [] || Str.endswith [PosixPath.sep] a then [] else [PosixPath.sep].

(** [p] is a prefix of [q]. *)
Fixpoint prefixb (p q : list str) : bool :=
  match p, q with
  | [], _ => true
  | x :: p', y :: q' => Str.eqb x y && prefixb p' q'
  | _ :: _, [] => false
  end.








(** ** Runs of the splitter and of the uploader *)

Section Vocabulary.

Context {ext : Externals}.





Definition request_of (t : task) : upload_request :=
  let '(bucket_name, s3_key, local_file_path) := t in
  {| req_local := local_file_path; req_bucket := bucket_name; req_key := s3_key |}.

(** What [upload_file_to_s3] prints for a task whose upload raised [o]. *)
Definition task_lines (t : task) (o : option exn) : list str :=
  let '(bucket_name, s3_key, local_file_path) := t in
  match o with
  | None =>
      [lit "✅ Uploaded: " ++ local_file_path ++ lit " -> s3://"
         ++ bucket_name ++ lit "/" ++ s3_key]
  | Some e =>
      if is_Exception e
      then [lit "❌ Error uploading " ++ local_file_path ++ lit ": " ++ exn_str e]
      else []
  end.

Definition add_lines (lines : list str) (w : world) : world :=
  fold_left (fun w line => add_stdout line w) lines w.

(** The world after a worker has run the upload of [t]. *)
Definition after_task (t : task) (w : world) : world :=
  add_lines (task_lines t (s3_upload_error (request_of t) w))
    (add_request (request_of t) w).

(** What the service answers to the uploads made in [order] from [w]. *)
Fixpoint run_outcomes (order : list task) (w : world) : list (option exn) :=
  match order with
  | [] => []
  | t :: rest =>
      s3_upload_error (request_of t) w :: run_outcomes rest (after_task t w)
  end.

Definition upload_fn (t : task) : M unit :=
  let '(bucket_name, s3_key, local_file_path) := t in
  upload_file_to_s3 bucket_name s3_key local_file_path.

End Vocabulary.

(** ** Names, walks and statements *)

(** The number of positions at which [old] occurs in [s]. *)
Fixpoint occurrences (old s : str) : nat :=
  match s with
  | [] => 0
  | _ :: s' => (if Str.startswith old s then 1 else 0) + occurrences old s'
  end.

(** Following the spec's words, "the filename with the extension stripped",
    as [os.path.splitext] strips it: what precedes the last dot, unless only
    dots precede it. *)
Definition strip_extension (name : str) : str :=
  let parts := Str.split "." name in
  if existsb (fun part => negb (Str.eqb part [])) (removelast parts)
  then Str.join (lit ".") (removelast parts)
  else name.

(** Following the spec's words: the last underscore-delimited token of the
    filename with the extension stripped. *)
Definition spec_dataset_name (input_file : str) : str :=
  Str.last_item (Str.split "_" (strip_extension (PosixPath.basename input_file))).

(** Induction on a file-system tree, with the hypothesis for every entry of
    a directory. *)
Fixpoint node_induction (P : FS.node -> Prop)
    (HF : forall data, P (FS.File data))
    (HD : forall es, Forall (fun e => P (snd e)) es -> P (FS.Dir es))
    (n : FS.node) : P n :=
  match n with
  | FS.File data => HF data
  | FS.Dir es =>
      HD es
        ((fix go (l : list (str * FS.node)) : Forall (fun e => P (snd e)) l :=
            match l with
            | [] => Forall_nil _
            | e :: l' =>
                Forall_cons e (node_induction P HF HD (snd e)) (go l')
            end) es)
  end.

(** The upload task of the file at [pre ++ cs] below the local root, met
    while walking from [top], the directory at [pre]. *)
Definition task_for (bucket_name s3_prefix top : str) (pre cs : list str) : task :=
  (bucket_name,
   s3_key_of s3_prefix
     (Str.replace backslash (lit "/") (Str.join (lit "/") (pre ++ cs))),
   fold_left PosixPath.join cs top).

(** What [collect_upload_tasks] does with one walked directory. *)
Definition tasks_of_root (local_dir bucket_name s3_prefix : str)
    (x : str * list str * list str) : M (list task) :=
  let '(root, _, files) := x in
  map_m (upload_task local_dir bucket_name s3_prefix root) files.






(** ** Failures, footprints and keys *)


Section SplitVocabulary.

Context {ext : Externals}.


End SplitVocabulary.

(** Every run of [c] takes a world to one related to it by [R]. *)
Definition keeps (R : world -> world -> Prop) {A} (c : M A) : Prop :=
  forall w, R w (snd (c w)).

(** The same file system and working directory. *)
Definition same_fs (w w' : world) : Prop :=
  root w' = root w /\ cwd_tail w' = cwd_tail w.

(** No upload requested and no statement executed in between. *)
Definition no_io (w w' : world) : Prop :=
  s3_requests w' = s3_requests w /\ sql_executed w' = sql_executed w.

(** What [upload_to_s3] may change: the uploads requested and the printed
    lines only. *)
Definition upload_footprint (w w' : world) : Prop :=
  same_fs w w' /\ sql_executed w' = sql_executed w.

(** What [data_load] may change: the statements executed and the printed
    lines only. *)
Definition load_footprint (w w' : world) : Prop :=
  same_fs w w' /\ s3_requests w' = s3_requests w.



(** The key prefix [upload_to_s3] takes out of the bucket path:
    ["/".join(s3_bucket_path.rstrip("/").split("/")[3:])]. *)
Definition s3_prefix_of (s3_bucket_path : str) : str :=
  Str.join (lit "/")
    (Str.slice_from 3 (Str.split "/" (Str.rstrip "/" s3_bucket_path))).

(** The key [upload_to_s3] gives the file at path [cs] below the local
    root. *)
Definition key_of_path (s3_prefix : str) (cs : list str) : str :=
  s3_key_of s3_prefix (Str.replace backslash (lit "/") (Str.join (lit "/") cs)).

Definition backslash_free (c : str) : Prop :=
  existsb (Ascii.eqb "092") c = false.

(** * Sample inputs *)

(** ** A test double for the libraries and services, and small worlds *)

Module Sample.

Definition sections : list (str * list (str * str)) :=
  [ (lit "STAGING",
      [ (lit "input_dataset_path", lit "data");
        (lit "output_folder_path", lit "output");
        (lit "no_of_lines", lit "2") ]);
    (lit "AWS",
      [ (lit "aws_access_key_id", lit "AKIA");
        (lit "aws_secret_access_key", lit "secret");
        (lit "aws_region", lit "eu-west-1");
        (lit "s3_bucket_name", lit "bucket");
        (lit "s3_bucket_path", lit "s3://bucket/dataset/") ]);
    (lit "SNOWFLAKE",
      [ (lit "private_key_file_path", lit "keys/rsa_key.p8");
        (lit "raw_database", lit "RAW");
        (lit "raw_schema", lit "YELP");
        (lit "warehouse", lit "WH");
        (lit "account", lit "acct");
        (lit "role", lit "loader");
        (lit "user", lit "etl") ]) ].

(** Settings like [sections], but with the input directory equal to the
    output directory. *)
Definition sections_shared : list (str * list (str * str)) :=
  match sections with
  | (staging, _) :: rest =>
      (staging,
        [ (lit "input_dataset_path", lit "output");
          (lit "output_folder_path", lit "output");
          (lit "no_of_lines", lit "2") ]) :: rest
  | [] => []
  end.

(** Records are kept as their text; a line holds a record when it is not
    empty.  A settings file holding [shared] stands for [sections_shared],
    any other for [sections].  An upload fails when its key ends in
    [bad.json]. *)
Definition ext : Externals :=
  {| json := str;
     json_loads := fun line =>
       match Str.rstrip "010" line with [] => None | s => Some s end;
     json_dumps := fun indent data =>
       lit "[" ++ nl
       ++ Str.join (lit "," ++ nl) (map (app (repeat " "%char indent)) data)
       ++ nl ++ lit "]";
     ini_sections := fun text =>
       Ok (if Str.eqb text (lit "shared") then sections_shared else sections);
     py_int := fun text =>
       option_map (fun d => Z.of_nat (Nat.of_uint d))
         (DecimalString.NilEmpty.uint_of_string (String.string_of_list_ascii text));
     boto3_client_error := fun _ _ => None;
     s3_upload_error := fun r _ =>
       if Str.endswith (lit "bad.json") (req_key r)
       then Some (BotoError (lit "AccessDenied")) else None;
     pem_to_der := fun key => Ok key;
     snowflake_connect_error := fun _ _ _ => None;
     execute_error := fun _ _ => None |}.

Definition world_of (r : FS.node) : world :=
  {| cwd_tail := lit "home/etl"; root := r; stdout := [];
     s3_requests := []; sql_executed := [] |}.



End Sample.






Definition sample_upload_world : world :=
  Sample.world_of
    (FS.Dir
       [ (lit "home",
           FS.Dir
             [ (lit "etl",
                 FS.Dir
                   [ (lit "output",
                       FS.Dir
                         [ (lit "business",
                             FS.Dir [ (lit "business_100_part_1.json",
                                        FS.File (lit "[]")) ]) ]) ]) ]) ]).

(** [/home/etl] with the settings file, the key file, the input directory
    [data] and the output directory [output]. *)
Definition pipeline_world (settings : str)
    (data_entries output_entries : list (str * FS.node)) : world :=
  Sample.world_of
    (FS.Dir
       [ (lit "home",
           FS.Dir
             [ (lit "etl",
                 FS.Dir
                   [ (lit "pipeline.cfg", FS.File settings);
                     (lit "keys", FS.Dir [ (lit "rsa_key.p8", FS.File (lit "PEM")) ]);
                     (lit "data", FS.Dir data_entries);
                     (lit "output", FS.Dir output_entries) ]) ]) ]).

(** Two datasets already split; the upload of [bad.json] will fail. *)
Definition sample_output : list (str * FS.node) :=
  [ (lit "business",
      FS.Dir [ (lit "business_2_part_1.json", FS.File (lit "[1, 2]"));
               (lit "bad.json", FS.File (lit "[3]")) ]);
    (lit "checkin",
      FS.Dir [ (lit "checkin_1_part_1.json", FS.File (lit "[4]")) ]) ].

Definition sample_pipeline_world : world :=
  pipeline_world (lit "[STAGING]") [] sample_output.

Definition sample_config : config :=
  {| input_dataset_path := lit "data";
     output_folder_path := lit "output";
     no_of_lines := 2;
     aws_access_key_id := lit "AKIA";
     aws_secret_access_key := lit "secret";
     aws_region := lit "eu-west-1";
     s3_bucket_name := lit "bucket";
     s3_bucket_path := lit "s3://bucket/dataset/";
     private_key_file_path := lit "keys/rsa_key.p8";
     raw_database := lit "RAW";
     raw_schema := lit "YELP";
     warehouse := lit "WH";
     account := lit "acct";
     role := lit "loader";
     user := lit "etl" |}.

Definition sample_tasks : list task :=
  [ (lit "bucket", lit "dataset/business/business_2_part_1.json",
     lit "output/business/business_2_part_1.json");
    (lit "bucket", lit "dataset/business/bad.json", lit "output/business/bad.json");
    (lit "bucket", lit "dataset/checkin/checkin_1_part_1.json",
     lit "output/checkin/checkin_1_part_1.json") ].

(** The settings of this world name [output] as the input directory too;
    it holds a file that is no [.json] file. *)
Definition shared_dir_world : world :=
  pipeline_world (lit "shared") [] [ (lit "notes.txt", FS.File (lit "hello")) ].

(** ** Further worlds and services *)




(** The pipeline's world with one input file whose second line is empty. *)
Definition sample_world_bad_input : world :=
  pipeline_world (lit "[STAGING]")
    [ (lit "yelp_business.json",
        FS.File (lit "{'id': 1}" ++ nl ++ nl ++ lit "{'id': 2}" ++ nl)) ]
    sample_output.

(** Services that refuse: the client cannot be made, the warehouse cannot be
    reached, and every statement fails.  The libraries are those of
    [Sample.ext]. *)
Definition refusing_ext : Externals :=
  {| json := @json Sample.ext;
     json_loads := @json_loads Sample.ext;
     json_dumps := @json_dumps Sample.ext;
     ini_sections := @ini_sections Sample.ext;
     py_int := @py_int Sample.ext;
     boto3_client_error := fun _ _ => Some (BotoError (lit "NoRegionError"));
     s3_upload_error := @s3_upload_error Sample.ext;
     pem_to_der := @pem_to_der Sample.ext;
     snowflake_connect_error := fun _ _ _ => Some (SnowflakeError (lit "timeout"));
     execute_error := fun _ _ => Some (SnowflakeError (lit "not authorized")) |}.

(** Like [Sample.ext], but every statement fails. *)
Definition failing_sql_ext : Externals :=
  {| json := @json Sample.ext;
     json_loads := @json_loads Sample.ext;
     json_dumps := @json_dumps Sample.ext;
     ini_sections := @ini_sections Sample.ext;
     py_int := @py_int Sample.ext;
     boto3_client_error := @boto3_client_error Sample.ext;
     s3_upload_error := @s3_upload_error Sample.ext;
     pem_to_der := @pem_to_der Sample.ext;
     snowflake_connect_error := @snowflake_connect_error Sample.ext;
     execute_error := fun _ _ => Some (SnowflakeError (lit "not authorized")) |}.


(** The pipeline's world without its output directory. *)
Definition sample_world_no_output : world :=
  Sample.world_of
    (FS.Dir
       [ (lit "home",
           FS.Dir
             [ (lit "etl",
                 FS.Dir
                   [ (lit "pipeline.cfg", FS.File (lit "[STAGING]"));
                     (lit "keys", FS.Dir []) ]) ]) ]).


(** A directory [a] holding [b], beside a file named [a\b]. *)
Definition sample_backslash_dir : FS.node :=
  FS.Dir
    [ (lit "a", FS.Dir [ (lit "b", FS.File (lit "[1]")) ]);
      ("a"%char :: "092"%char :: lit "b", FS.File (lit "[2]")) ].

(** * Properties *)

(** ** Strings *)

Lemma str_eqb_eq (a b : str) : Str.eqb a b = true <-> a = b.
Proof.
  revert b; induction a as [|x a IH]; intros [|y b]; simpl; split;
    try congruence; try reflexivity.
  - intros H; apply andb_prop in H as [H1 H2].
    apply Ascii.eqb_eq in H1; apply IH in H2; congruence.
  - intros H; injection H as -> ->.
    rewrite Ascii.eqb_refl; simpl; now apply IH.
Qed.

Lemma str_eqb_refl (a : str) : Str.eqb a a = true.
Proof. now apply str_eqb_eq. Qed.

Lemma str_eqb_neq (a b : str) : Str.eqb a b = false <-> a <> b.
Proof.
  split.
  - intros H E; apply str_eqb_eq in E; congruence.
  - intros H; destruct (Str.eqb a b) eqn:E; [|reflexivity].
    apply str_eqb_eq in E; contradiction.
Qed.

Lemma startswith_app (p s : str) : Str.startswith p (p ++ s) = true.
Proof. induction p; simpl; [reflexivity|]. now rewrite Ascii.eqb_refl. Qed.

Lemma startswith_inv (p s : str) :
  Str.startswith p s = true -> exists t, s = p ++ t.
Proof.
  revert s; induction p as [|x p IH]; intros s H.
  - now exists s.
  - destruct s as [|y s]; [discriminate|]; simpl in H.
    apply andb_prop in H as [H1 H2]; apply Ascii.eqb_eq in H1; subst y.
    destruct (IH _ H2) as [t ->]; now exists t.
Qed.

Lemma endswith_app (suf s : str) : Str.endswith suf (s ++ suf) = true.
Proof. unfold Str.endswith; rewrite rev_app_distr; apply startswith_app. Qed.

Lemma endswith_inv (suf s : str) :
  Str.endswith suf s = true -> exists t, s = t ++ suf.
Proof.
  unfold Str.endswith; intros H; apply startswith_inv in H as [t H].
  exists (rev t); apply (f_equal (@rev ascii)) in H.
  now rewrite rev_involutive, rev_app_distr, rev_involutive in H.
Qed.

Lemma endswith_char_app (c : ascii) (a b : str) :
  b <> [] -> Str.endswith [c] (a ++ b) = Str.endswith [c] b.
Proof.
  intros Hb; unfold Str.endswith; rewrite rev_app_distr.
  destruct (rev b) as [|y r] eqn:E.
  - apply (f_equal (@rev ascii)) in E; rewrite rev_involutive in E; now subst.
  - reflexivity.
Qed.

(** *** [split] and [join] *)

Lemma split_not_nil (c : ascii) (s : str) : Str.split c s <> [].
Proof.
  induction s as [|x s IH]; simpl; [discriminate|].
  destruct (Ascii.eqb x c); [discriminate|].
  destruct (Str.split c s); discriminate.
Qed.

Lemma split_no_sep (c : ascii) (s : str) :
  existsb (Ascii.eqb c) s = false -> Str.split c s = [s].
Proof.
  induction s as [|x s IH]; simpl; [reflexivity|].
  intros H; apply orb_false_elim in H as [H1 H2].
  rewrite Ascii.eqb_sym, H1, (IH H2); reflexivity.
Qed.

Lemma split_app_sep (c : ascii) (a b : str) :
  Str.split c (a ++ c :: b) = Str.split c a ++ Str.split c b.
Proof.
  induction a as [|x a IH]; simpl.
  - now rewrite Ascii.eqb_refl.
  - destruct (Ascii.eqb x c); [now rewrite IH|].
    rewrite IH.
    pose proof (split_not_nil c a); destruct (Str.split c a); [contradiction|reflexivity].
Qed.

Lemma split_no_sep_inside (c : ascii) (s w : str) :
  In w (Str.split c s) -> existsb (Ascii.eqb c) w = false.
Proof.
  revert w; induction s as [|x s IH]; simpl; intros w H.
  - destruct H as [<-|[]]; reflexivity.
  - destruct (Ascii.eqb x c) eqn:E.
    + destruct H as [<-|H]; [reflexivity|now apply IH].
    + pose proof (split_not_nil c s); destruct (Str.split c s) as [|w0 ws]; [contradiction|].
      destruct H as [<-|H].
      * simpl; rewrite Ascii.eqb_sym, E; simpl; apply IH; now left.
      * apply IH; now right.
Qed.

Lemma join_cons (sep : str) (x : str) (l : list str) :
  l <> [] -> Str.join sep (x :: l) = x ++ sep ++ Str.join sep l.
Proof. destruct l; [contradiction|reflexivity]. Qed.

Lemma split_join (c : ascii) (l : list str) :
  l <> [] ->
  Forall (fun w => existsb (Ascii.eqb c) w = false) l ->
  Str.split c (Str.join [c] l) = l.
Proof.
  induction l as [|x l IH]; [contradiction|].
  intros _ H; inversion H as [|? ? Hx Hl]; subst.
  destruct l as [|y l].
  - simpl; now apply split_no_sep.
  - rewrite join_cons by discriminate.
    change (x ++ [c] ++ Str.join [c] (y :: l))
      with (x ++ c :: Str.join [c] (y :: l)).
    rewrite split_app_sep, IH by (assumption || discriminate).
    now rewrite split_no_sep.
Qed.

Lemma lstrip_repeat (c : ascii) (n : nat) (s : str) :
  Str.lstrip c (repeat c n ++ s) = Str.lstrip c s.
Proof. induction n; simpl; [reflexivity|]. now rewrite Ascii.eqb_refl. Qed.

Lemma lstrip_other (c x : ascii) (s : str) :
  Ascii.eqb x c = false -> Str.lstrip c (x :: s) = x :: s.
Proof. intros H; simpl; now rewrite H. Qed.

(** ** Paths *)

Lemma valid_name_inv (c : str) :
  FS.valid_name c = true ->
  c <> [] /\ c <> PosixPath.curdir /\ c <> PosixPath.pardir /\ sep_free c.
Proof.
  unfold FS.valid_name; intros H.
  repeat (apply andb_prop in H as [H ?]).
  repeat match goal with
         | X : negb _ = true |- _ => apply negb_true_iff in X
         end.
  repeat split; try (apply str_eqb_neq; assumption); assumption.
Qed.

Lemma valid_name_not_abs (c : str) :
  FS.valid_name c = true -> PosixPath.isabs c = false.
Proof.
  intros H; apply valid_name_inv in H as (H0 & _ & _ & H3).
  destruct c as [|x c]; [contradiction|].
  unfold sep_free in H3; cbn [existsb] in H3; apply orb_false_elim in H3 as [H3 _].
  unfold PosixPath.isabs; cbn [Str.startswith]. now rewrite H3.
Qed.

Lemma norm_step_abs (ini : nat) (st : list str) (c : str) :
  ini <> 0 -> PosixPath.norm_step ini st c = PosixPath.norm_step 1 st c.
Proof. destruct ini; [contradiction|reflexivity]. Qed.

Lemma fold_norm_step_abs (ini : nat) (l st : list str) :
  ini <> 0 ->
  fold_left (PosixPath.norm_step ini) l st
  = fold_left (PosixPath.norm_step 1) l st.
Proof.
  intros H; revert st; induction l as [|c l IH]; intros st; simpl; [reflexivity|].
  now rewrite IH, norm_step_abs.
Qed.

Lemma norm_step_valid (ini : nat) (st : list str) (c : str) :
  FS.valid_name c = true -> PosixPath.norm_step ini st c = st ++ [c].
Proof.
  intros H; apply valid_name_inv in H as (H0 & H1 & H2 & _).
  unfold PosixPath.norm_step.
  apply str_eqb_neq in H0, H1, H2. now rewrite H0, H1, H2.
Qed.

Lemma norm_step_empty (ini : nat) (st : list str) :
  PosixPath.norm_step ini st [] = st.
Proof. reflexivity. Qed.

Lemma Forall_removelast {A} (P : A -> Prop) (l : list A) :
  Forall P l -> Forall P (removelast l).
Proof.
  induction 1 as [|x l Hx Hl IH]; simpl; [constructor|].
  destruct l; [constructor|]. now constructor.
Qed.

Lemma norm_step_good (ini : nat) (st : list str) (c : str) :
  Forall good_comp st -> sep_free c ->
  Forall good_comp (PosixPath.norm_step ini st c).
Proof.
  intros Hst Hc; unfold PosixPath.norm_step.
  destruct (Str.eqb c []) eqn:E0; simpl; [assumption|].
  destruct (Str.eqb c PosixPath.curdir); simpl; [assumption|].
  match goal with |- Forall _ (if ?b then _ else _) => destruct b end.
  - apply Forall_app; split; [assumption|].
    constructor; [|constructor]. split; [now apply str_eqb_neq|assumption].
  - now apply Forall_removelast.
Qed.

Lemma fold_norm_step_good (ini : nat) (l st : list str) :
  Forall good_comp st -> Forall sep_free l ->
  Forall good_comp (fold_left (PosixPath.norm_step ini) l st).
Proof.
  revert st; induction l as [|c l IH]; intros st Hst Hl; simpl; [assumption|].
  inversion Hl; subst. apply IH; [|assumption]. now apply norm_step_good.
Qed.

Lemma split_sep_free (p : str) : Forall sep_free (Str.split PosixPath.sep p).
Proof. apply Forall_forall; intros w H. eapply split_no_sep_inside; eauto. Qed.

Lemma comps_of_good (p : str) : Forall good_comp (comps_of p).
Proof. apply fold_norm_step_good; [constructor|apply split_sep_free]. Qed.

Lemma join_good_lstrip (l : list str) :
  Forall good_comp l ->
  Str.lstrip PosixPath.sep (Str.join [PosixPath.sep] l) = Str.join [PosixPath.sep] l.
Proof.
  intros H; destruct l as [|x l]; [reflexivity|].
  inversion H as [|? ? [Hx Hs] Hl]; subst.
  destruct x as [|a x]; [contradiction|].
  unfold sep_free in Hs; cbn [existsb] in Hs; apply orb_false_elim in Hs as [Hs _].
  rewrite Ascii.eqb_sym in Hs.
  destruct l; cbn [Str.join app Str.lstrip]; now rewrite Hs.
Qed.

Lemma join_good_nil (l : list str) :
  Forall good_comp l -> Str.join [PosixPath.sep] l = [] -> l = [].
Proof.
  intros H E; destruct l as [|x l]; [reflexivity|].
  inversion H as [|? ? [Hx _] _]; subst.
  destruct x; [contradiction|]. destruct l; discriminate.
Qed.

Lemma full_path_abs (t p : str) :
  exists y, full_path (PosixPath.sep :: t) p = PosixPath.sep :: y.
Proof.
  unfold full_path. destruct (PosixPath.isabs p) eqn:E.
  - unfold PosixPath.isabs in E. apply startswith_inv in E as [y ->]. now exists y.
  - unfold PosixPath.join; rewrite E.
    destruct (Str.eqb _ _ || _); simpl; eauto.
Qed.

Lemma initial_slashes_abs (y : str) :
  PosixPath.initial_slashes (PosixPath.sep :: y) <> 0.
Proof.
  unfold PosixPath.initial_slashes.
  change (PosixPath.sep :: y) with ([PosixPath.sep] ++ y).
  rewrite (startswith_app [PosixPath.sep] y).
  destruct (_ && _); discriminate.
Qed.

(** [relpath]'s component list is what [normpath] keeps of the full path. *)
Lemma tail_list_abs (t p : str) :
  PosixPath.tail_list (PosixPath.sep :: t) p
  = comps_of (full_path (PosixPath.sep :: t) p).
Proof.
  unfold PosixPath.tail_list, PosixPath.abspath.
  fold (full_path (PosixPath.sep :: t) p).
  destruct (full_path_abs t p) as [y ->].
  unfold PosixPath.normpath.
  pose proof (initial_slashes_abs y) as Hini.
  set (ini := PosixPath.initial_slashes (PosixPath.sep :: y)) in *.
  rewrite fold_norm_step_abs by exact Hini. fold (comps_of (PosixPath.sep :: y)).
  pose proof (comps_of_good (PosixPath.sep :: y)) as Hg.
  set (cs := comps_of (PosixPath.sep :: y)) in *.
  destruct (repeat PosixPath.sep ini ++ Str.join [PosixPath.sep] cs) eqn:E.
  - destruct ini; [contradiction|discriminate].
  - rewrite <- E, lstrip_repeat, join_good_lstrip by assumption.
    destruct (Str.join [PosixPath.sep] cs) eqn:Ej.
    + symmetry; now apply join_good_nil.
    + rewrite <- Ej. apply split_join.
      * intros ->; discriminate.
      * eapply Forall_impl; [|exact Hg]. now intros w [_ ?].
Qed.

Lemma join_rel (a b : str) :
  PosixPath.isabs b = false -> PosixPath.join a b = a ++ sepfix a ++ b.
Proof.
  intros H; unfold PosixPath.join, sepfix; rewrite H.
  destruct (_ || _); reflexivity.
Qed.

Lemma isabs_app (a b : str) :
  a <> [] -> PosixPath.isabs (a ++ b) = PosixPath.isabs a.
Proof. destruct a; [contradiction|reflexivity]. Qed.

Lemma sepfix_app (a b : str) :
  b <> [] -> sepfix (a ++ b) = sepfix b.
Proof.
  intros Hb; unfold sepfix. rewrite endswith_char_app by assumption.
  destruct b as [|y b]; [contradiction|].
  replace (Str.eqb (a ++ y :: b) []) with false; [reflexivity|].
  symmetry; apply str_eqb_neq. destruct a; discriminate.
Qed.

Lemma sepfix_idem (a : str) : a <> [] -> sepfix (a ++ sepfix a) = [].
Proof.
  intros Ha; unfold sepfix at 2.
  destruct (Str.eqb a [] || Str.endswith [PosixPath.sep] a) eqn:E.
  - rewrite app_nil_r; unfold sepfix; now rewrite E.
  - unfold sepfix. rewrite endswith_app. now rewrite orb_true_r.
Qed.

Lemma full_path_join (t d name : str) :
  FS.valid_name name = true ->
  full_path (PosixPath.sep :: t) (PosixPath.join d name)
  = PosixPath.join (full_path (PosixPath.sep :: t) d) name.
Proof.
  intros Hn. pose proof (valid_name_not_abs _ Hn) as Hna.
  apply valid_name_inv in Hn as (Hne & _).
  set (cwd := PosixPath.sep :: t).
  assert (Hcwd : cwd <> []) by discriminate.
  unfold full_path. rewrite !(join_rel _ _ Hna).
  destruct (PosixPath.isabs d) eqn:Hd.
  - rewrite isabs_app, Hd; [reflexivity|]. intros ->; discriminate.
  - rewrite (join_rel _ _ Hd).
    destruct d as [|a d].
    + cbn [app]. replace (sepfix []) with (@nil ascii) by reflexivity.
      cbn [app]. rewrite Hna, app_nil_r, (join_rel _ _ Hna).
      rewrite sepfix_idem by assumption. now rewrite <- app_assoc.
    + rewrite isabs_app, Hd by discriminate.
      rewrite join_rel.
      * rewrite (sepfix_app cwd), (sepfix_app (sepfix cwd));
          [ now rewrite <- !app_assoc | discriminate
          | destruct (sepfix cwd); discriminate ].
      * rewrite isabs_app by discriminate. exact Hd.
Qed.

Lemma comps_of_join (y name : str) :
  FS.valid_name name = true ->
  comps_of (PosixPath.join (PosixPath.sep :: y) name)
  = comps_of (PosixPath.sep :: y) ++ [name].
Proof.
  intros Hn. rewrite (join_rel _ _ (valid_name_not_abs _ Hn)).
  pose proof (valid_name_inv _ Hn) as (_ & _ & _ & Hs).
  set (p := PosixPath.sep :: y). unfold comps_of, sepfix.
  replace (Str.eqb p []) with false by reflexivity. cbn [orb].
  destruct (Str.endswith [PosixPath.sep] p) eqn:E.
  - apply endswith_inv in E as [z E]. rewrite E.
    rewrite <- !app_assoc. cbn [app].
    rewrite !split_app_sep, (split_no_sep _ _ Hs), !fold_left_app.
    cbn [Str.split fold_left]. rewrite norm_step_empty.
    now apply norm_step_valid.
  - cbn [app]. rewrite split_app_sep, (split_no_sep _ _ Hs), fold_left_app.
    cbn [fold_left]. now apply norm_step_valid.
Qed.

(** Joining a valid name onto a path adds one component. *)
Lemma tail_list_join (t d name : str) :
  FS.valid_name name = true ->
  PosixPath.tail_list (PosixPath.sep :: t) (PosixPath.join d name)
  = PosixPath.tail_list (PosixPath.sep :: t) d ++ [name].
Proof.
  intros Hn. rewrite !tail_list_abs, full_path_join by assumption.
  destruct (full_path_abs t d) as [y ->]. now apply comps_of_join.
Qed.

(** ** The file system *)















(** ** Decimal numerals and file names *)










(** ** Batches *)












(** ** Running [split_json_file] *)



Section SplitProofs.

Context {ext : Externals}.



End SplitProofs.









Section SplitFile.

Context {ext : Externals}.



End SplitFile.

(** ** The splitter's contract *)

Section SplitClaims.

Context {ext : Externals}.







End SplitClaims.



Section SplitBoundaries.

Context {ext : Externals}.




End SplitBoundaries.

(** ** The splitter on sample inputs *)









(** ** The dataset name *)

Lemma replace_from_skip_all (old new s : str) : forall skip,
  length s <= skip -> Str.replace_from skip old new s = [].
Proof.
  induction s as [|x s IH]; intros skip H; [reflexivity|].
  simpl in H. destruct skip; [lia|]. simpl. apply IH. lia.
Qed.

Lemma startswith_refl (p : str) : Str.startswith p p = true.
Proof. rewrite <- (app_nil_r p) at 2. apply startswith_app. Qed.

Lemma occurrences_suffix (old t : str) :
  old <> [] -> 1 <= occurrences old (t ++ old).
Proof.
  intros Hold. induction t as [|x t IH].
  - destruct old as [|y old]; [contradiction|].
    cbn [app occurrences]. rewrite startswith_refl. lia.
  - cbn [app occurrences]. lia.
Qed.

Lemma replace_only_suffix (old t : str) :
  old <> [] -> occurrences old (t ++ old) = 1 ->
  Str.replace old [] (t ++ old) = t.
Proof.
  intros Hold. unfold Str.replace. induction t as [|x t IH]; intros H.
  - destruct old as [|y old]; [contradiction|].
    cbn [app Str.replace_from]. rewrite startswith_refl.
    cbn [app]. apply replace_from_skip_all. simpl. lia.
  - pose proof (occurrences_suffix old t Hold) as Hs.
    cbn [app occurrences] in H. cbn [app Str.replace_from].
    destruct (Str.startswith old (x :: t ++ old)); [lia|].
    f_equal. apply IH. lia.
Qed.

(** C5, amended.  For an input file whose base name ends in [.json] and
    holds [.json] nowhere else, the dataset name is the last
    underscore-delimited token of the base name without that extension. *)
Theorem dataset_name_of_json_file (input_file stem : str) :
  PosixPath.basename input_file = stem ++ lit ".json" ->
  occurrences (lit ".json") (PosixPath.basename input_file) = 1 ->
  split_key_of input_file = Str.last_item (Str.split "_" stem).
Proof.
  intros Hb Hocc. unfold split_key_of. rewrite Hb in Hocc |- *.
  rewrite replace_only_suffix; [reflexivity|discriminate|assumption].
Qed.

Lemma dataset_name_of_json_file_witness :
  (PosixPath.basename (lit "raw/yelp_academic_dataset_business.json")
   = lit "yelp_academic_dataset_business" ++ lit ".json"
   /\ occurrences (lit ".json")
        (PosixPath.basename (lit "raw/yelp_academic_dataset_business.json")) = 1
   /\ split_key_of (lit "raw/yelp_academic_dataset_business.json") = lit "business")
  /\ (PosixPath.basename (lit "foo_bar_checkin.json") = lit "foo_bar_checkin" ++ lit ".json"
      /\ occurrences (lit ".json") (PosixPath.basename (lit "foo_bar_checkin.json")) = 1
      /\ split_key_of (lit "foo_bar_checkin.json") = lit "checkin").
Proof.
  split; (split; [reflexivity|]; split; [reflexivity|]).
  - exact (dataset_name_of_json_file (lit "raw/yelp_academic_dataset_business.json")
             (lit "yelp_academic_dataset_business") eq_refl eq_refl).
  - exact (dataset_name_of_json_file (lit "foo_bar_checkin.json")
             (lit "foo_bar_checkin") eq_refl eq_refl).
Defined.

(** C5 as stated fails on a file name with another extension: nothing is
    stripped from [notes_2024.txt]. *)
Lemma dataset_name_counterexample :
  split_key_of (lit "data/notes_2024.txt") = lit "2024.txt"
  /\ spec_dataset_name (lit "data/notes_2024.txt") = lit "2024"
  /\ split_key_of (lit "data/notes_2024.txt")
     <> spec_dataset_name (lit "data/notes_2024.txt").
Proof.
  split; [reflexivity|]. split; [reflexivity|]. vm_compute. discriminate.
Qed.

(** Every occurrence of [.json] is removed, not only the extension. *)
Example dataset_name_inner_occurrence :
  split_key_of (lit "export_v1.jsonl.json") = lit "v1l"
  /\ spec_dataset_name (lit "export_v1.jsonl.json") = lit "v1.jsonl".
Proof. split; reflexivity. Qed.

(** ** Walking the output directory *)

Lemma common_len_app (a b : list str) : PosixPath.common_len a (a ++ b) = length a.
Proof. induction a; simpl; [now destruct b|]. now rewrite str_eqb_refl, IHa. Qed.

Lemma skipn_length_app {A} (a b : list A) : skipn (length a) (a ++ b) = b.
Proof. induction a; simpl; auto. Qed.

Lemma join_not_nil (a name : str) : name <> [] -> PosixPath.join a name <> [].
Proof.
  intros Hn. unfold PosixPath.join.
  destruct (PosixPath.isabs name); [assumption|].
  destruct (_ || _); intros H; apply app_eq_nil in H as [_ H];
    [contradiction|discriminate].
Qed.

Lemma relpath_below (t path start : str) (cs : list str) :
  path <> [] -> cs <> [] ->
  PosixPath.tail_list (PosixPath.sep :: t) path
  = PosixPath.tail_list (PosixPath.sep :: t) start ++ cs ->
  PosixPath.relpath (PosixPath.sep :: t) path start
  = Some (Str.join [PosixPath.sep] cs).
Proof.
  intros Hp Hcs H. unfold PosixPath.relpath.
  destruct path as [|x path]; [contradiction|].
  rewrite H, common_len_app, Nat.sub_diag. cbn [repeat app].
  unfold Str.slice_from. rewrite skipn_length_app.
  destruct cs; [contradiction|reflexivity].
Qed.

Lemma upload_task_ok (local_dir bucket_name s3_prefix top file : str)
    (pre : list str) (w : world) :
  FS.valid_name file = true ->
  PosixPath.tail_list (getcwd w) top
  = PosixPath.tail_list (getcwd w) local_dir ++ pre ->
  upload_task local_dir bucket_name s3_prefix top file w
  = (Ok (task_for bucket_name s3_prefix top pre [file]), w).
Proof.
  intros Hv Ht. unfold upload_task, bind, getcwd in *.
  rewrite (relpath_below (cwd_tail w) (PosixPath.join top file) local_dir (pre ++ [file])).
  - reflexivity.
  - apply join_not_nil. now apply valid_name_inv in Hv.
  - now destruct pre.
  - rewrite tail_list_join by assumption. now rewrite Ht, app_assoc.
Qed.

Lemma map_m_pure {A B} (f : A -> M B) (g : A -> B) (l : list A) (w : world) :
  Forall (fun x => f x w = (Ok (g x), w)) l ->
  map_m f l w = (Ok (map g l), w).
Proof.
  induction 1 as [|x l Hx Hl IH]; [reflexivity|].
  simpl. unfold bind. now rewrite Hx, IH.
Qed.

Lemma map_m_app {A B} (f : A -> M B) (l1 l2 : list A) (r1 r2 : list B)
    (w w' : world) : forall w0,
  map_m f l1 w0 = (Ok r1, w) -> map_m f l2 w = (Ok r2, w') ->
  map_m f (l1 ++ l2) w0 = (Ok (r1 ++ r2), w').
Proof.
  revert r1; induction l1 as [|x l1 IH]; intros r1 w0 H1 H2.
  - simpl in H1. unfold ret in H1. injection H1 as <- <-. assumption.
  - simpl in H1 |- *. unfold bind in H1 |- *.
    destruct (f x w0) as [[y|e] w1] eqn:Ex; [|discriminate].
    destruct (map_m f l1 w1) as [[ys|e] w2] eqn:El; [|discriminate].
    unfold ret in H1. injection H1 as <- ->.
    now rewrite (IH ys w1 El H2).
Qed.

Lemma wf_dir_inv (es : list (str * FS.node)) :
  FS.wf (FS.Dir es) = true ->
  Forall (fun e => FS.valid_name (fst e) = true /\ FS.wf (snd e) = true) es.
Proof.
  simpl. intros H. apply Forall_forall. intros e He.
  rewrite forallb_forall in H. specialize (H e He).
  now apply andb_prop in H.
Qed.

Lemma nondirs_valid (es : list (str * FS.node)) :
  FS.wf (FS.Dir es) = true ->
  Forall (fun name => FS.valid_name name = true) (FS.nondirs es).
Proof.
  intros H. apply wf_dir_inv in H. unfold FS.nondirs.
  apply Forall_forall. intros name Hn.
  apply in_map_iff in Hn as (e & <- & He). apply filter_In in He as [He _].
  rewrite Forall_forall in H. now apply H.
Qed.

Section Walk.

Variables local_dir bucket_name s3_prefix : str.

Lemma walk_tasks (w : world) (d : FS.node) : forall top pre,
  FS.wf d = true ->
  PosixPath.tail_list (getcwd w) top
  = PosixPath.tail_list (getcwd w) local_dir ++ pre ->
  exists ls,
    map_m (tasks_of_root local_dir bucket_name s3_prefix) (FS.walk top d) w = (Ok ls, w)
    /\ concat ls
       = map (task_for bucket_name s3_prefix top pre) (FS.file_paths d).
Proof.
  induction d as [data|es IH] using node_induction; intros top pre Hwf Ht.
  - exists []. split; reflexivity.
  - pose proof (nondirs_valid es Hwf) as Hfiles.
    assert (Hhere : map_m (upload_task local_dir bucket_name s3_prefix top)
                      (FS.nondirs es) w
                    = (Ok (map (fun file => task_for bucket_name s3_prefix top pre [file])
                             (FS.nondirs es)), w)).
    { apply map_m_pure. eapply Forall_impl; [|exact Hfiles].
      intros file Hv. now apply upload_task_ok. }
    assert (Hsub : exists ls,
               map_m (tasks_of_root local_dir bucket_name s3_prefix)
                 (flat_map (fun e => FS.walk (PosixPath.join top (fst e)) (snd e)) es) w
               = (Ok ls, w)
               /\ concat ls
                  = map (task_for bucket_name s3_prefix top pre)
                      (flat_map (fun e => map (cons (fst e)) (FS.file_paths (snd e))) es)).
    { apply wf_dir_inv in Hwf. clear Hhere Hfiles.
      induction es as [|[name ch] es IHes]; [exists []; split; reflexivity|].
      inversion IH as [|? ? IHch IHrest]; subst.
      inversion Hwf as [|? ? [Hname Hch] Hrest]; subst. simpl in Hname, Hch, IHch.
      destruct (IHes IHrest Hrest) as (ls2 & Hrun2 & Hc2).
      destruct (IHch (PosixPath.join top name) (pre ++ [name]) Hch) as (ls1 & Hrun1 & Hc1).
      { unfold getcwd. rewrite tail_list_join by assumption.
        fold (getcwd w). now rewrite Ht, app_assoc. }
      exists (ls1 ++ ls2). split.
      - cbn [flat_map fst snd]. now apply map_m_app with (w := w).
      - rewrite concat_app, Hc1, Hc2. cbn [flat_map fst snd].
        rewrite map_app, map_map. f_equal.
        apply map_ext. intros cs. unfold task_for. cbn [fold_left].
        now rewrite <- app_assoc. }
    destruct Hsub as (ls & Hrun & Hc).
    exists (map (fun file => task_for bucket_name s3_prefix top pre [file]) (FS.nondirs es) :: ls).
    split.
    + cbn [FS.walk map_m]. unfold bind at 1. cbn [tasks_of_root].
      rewrite Hhere. unfold bind. rewrite Hrun. reflexivity.
    + cbn [concat FS.file_paths]. rewrite Hc, map_app, map_map. reflexivity.
Qed.

End Walk.

Lemma tail_list_fold_join (t : str) (cs : list str) : forall top,
  Forall (fun c => FS.valid_name c = true) cs ->
  PosixPath.tail_list (PosixPath.sep :: t) (fold_left PosixPath.join cs top)
  = PosixPath.tail_list (PosixPath.sep :: t) top ++ cs.
Proof.
  induction cs as [|c cs IH]; intros top H; simpl.
  - now rewrite app_nil_r.
  - inversion H; subst. rewrite IH by assumption.
    rewrite tail_list_join by assumption. now rewrite <- app_assoc.
Qed.

Lemma file_paths_valid (d : FS.node) : forall cs,
  FS.wf d = true -> In cs (FS.file_paths d) ->
  Forall (fun c => FS.valid_name c = true) cs.
Proof.
  induction d as [data|es IH] using node_induction; intros cs Hwf Hin; [contradiction|].
  cbn [FS.file_paths] in Hin. apply in_app_or in Hin as [Hin|Hin].
  - apply in_map_iff in Hin as (name & <- & Hname).
    pose proof (nondirs_valid es Hwf) as Hv. rewrite Forall_forall in Hv.
    constructor; [now apply Hv|constructor].
  - apply in_flat_map in Hin as (e & He & Hin).
    apply in_map_iff in Hin as (cs' & <- & Hcs').
    apply wf_dir_inv in Hwf. rewrite Forall_forall in Hwf, IH.
    destruct (Hwf e He) as [Hname Hch].
    constructor; [assumption|]. now apply (IH e He).
Qed.

(** The tasks [collect_upload_tasks] returns, and where their local paths
    lead. *)
Lemma collect_upload_tasks_run (local_dir bucket_name s3_prefix : str)
    (w : world) (d : FS.node) :
  FS.lookup (PosixPath.tail_list (getcwd w) local_dir) (root w) = Some d ->
  FS.wf d = true ->
  collect_upload_tasks local_dir bucket_name s3_prefix w
  = (Ok (map (task_for bucket_name s3_prefix local_dir []) (FS.file_paths d)), w)
  /\ (forall cs, In cs (FS.file_paths d) ->
        PosixPath.tail_list (getcwd w) (fold_left PosixPath.join cs local_dir)
        = PosixPath.tail_list (getcwd w) local_dir ++ cs).
Proof.
  intros Hl Hwf. split.
  - destruct (walk_tasks local_dir bucket_name s3_prefix w d local_dir [] Hwf)
      as (ls & Hrun & Hc).
    { now rewrite app_nil_r. }
    unfold collect_upload_tasks, bind at 1. unfold os_walk, bind, resolve, fs_query.
    rewrite Hl.
    unfold tasks_of_root in Hrun. rewrite Hrun. unfold ret. now rewrite Hc.
  - intros cs Hin. unfold getcwd. apply tail_list_fold_join.
    now apply file_paths_valid with d.
Qed.



(** ** Uploading *)

Section Upload.

Context {ext : Externals}.

Lemma work_item_run (t : task) (w : world) :
  run_work_item (upload_fn t) w = (Ok tt, after_task t w).
Proof.
  destruct t as [[bucket_name s3_key] local_file_path].
  unfold run_work_item, upload_fn, upload_file_to_s3, try_except, bind,
    s3_upload_file, after_task, request_of, task_lines.
  destruct (s3_upload_error _ w) as [e|]; [|reflexivity].
  destruct (is_Exception e); reflexivity.
Qed.

Lemma nth_remove_perm {A} (l : list A) : forall i t,
  nth_error l i = Some t ->
  Permutation (t :: remove_nth i l) l /\ S (length (remove_nth i l)) = length l.
Proof.
  induction l as [|x l IH]; intros [|i] t H; try discriminate H.
  - simpl in H. injection H as ->. split; reflexivity.
  - simpl in H. destruct (IH i t H) as [Hp Hl]. simpl. split.
    + rewrite perm_swap. now constructor.
    + now rewrite Hl.
Qed.

Lemma executor_map_run (n : nat) : forall sched pending w,
  n = length pending ->
  exists order,
    Permutation order pending
    /\ executor_map n sched upload_fn pending w
       = (Ok tt, fold_left (fun w t => after_task t w) order w).
Proof.
  induction n as [|n IH]; intros sched pending w Hn.
  - destruct pending; [|discriminate]. exists []. split; [constructor|reflexivity].
  - cbn [executor_map].
    assert (Hi : hd 0 sched mod length pending < length pending)
      by (apply Nat.mod_upper_bound; lia).
    destruct (nth_error pending (hd 0 sched mod length pending)) as [t|] eqn:Et.
    + destruct (nth_remove_perm pending _ t Et) as [Hp Hl].
      destruct (IH (tl sched) (remove_nth (hd 0 sched mod length pending) pending)
                  (after_task t w)) as (order & Ho & Hrun); [lia|].
      exists (t :: order). split.
      * rewrite <- Hp. now constructor.
      * unfold bind. rewrite work_item_run. exact Hrun.
    + apply nth_error_None in Et. lia.
Qed.

Lemma add_lines_fields (lines : list str) (w : world) :
  s3_requests (add_lines lines w) = s3_requests w
  /\ stdout (add_lines lines w) = stdout w ++ lines.
Proof.
  revert w; induction lines as [|l lines IH]; intros w; simpl.
  - now rewrite app_nil_r.
  - destruct (IH (add_stdout l w)) as [H1 H2]. unfold add_lines in *.
    rewrite H1, H2. simpl. now rewrite <- app_assoc.
Qed.

Lemma run_all_fields (order : list task) : forall w,
  s3_requests (fold_left (fun w t => after_task t w) order w)
  = s3_requests w ++ map request_of order
  /\ stdout (fold_left (fun w t => after_task t w) order w)
     = stdout w
       ++ concat (map (fun p => task_lines (fst p) (snd p))
                    (combine order (run_outcomes order w))).
Proof.
  induction order as [|t order IH]; intros w; simpl.
  - now rewrite !app_nil_r.
  - destruct (IH (after_task t w)) as [H1 H2]. rewrite H1, H2.
    destruct (add_lines_fields (task_lines t (s3_upload_error (request_of t) w))
                (add_request (request_of t) w)) as [E1 E2].
    fold (after_task t w) in E1, E2.
    rewrite E1, E2. cbn [s3_requests stdout add_request].
    now rewrite <- !app_assoc.
Qed.

(** C3.  Once the settings are read, the client is made and the tasks are
    collected, [upload_to_s3] ends normally whatever the uploads raise:
    every task is attempted exactly once, in some order; each attempt
    prints its line (success, or the error for a raised [Exception]); and
    the run ends by printing the success message. *)
Theorem upload_failures_isolated (sched : list nat) (config_path : str)
    (w0 w1 w2 w3 : world) (config : config) (tasks : list task) :
  parse_config config_path w0 = (Ok config, w1) ->
  aws_s3_client config_path w1 = (Ok tt, w2) ->
  collect_upload_tasks (output_folder_path config) (s3_bucket_name config)
    (Str.join (lit "/")
       (Str.slice_from 3 (Str.split "/" (Str.rstrip "/" (s3_bucket_path config)))))
    w2 = (Ok tasks, w3) ->
  exists w' order,
    upload_to_s3 sched config_path w0 = (Ok tt, w')
    /\ Permutation order tasks
    /\ s3_requests w' = s3_requests w3 ++ map request_of order
    /\ stdout w'
       = stdout w3
         ++ concat (map (fun p => task_lines (fst p) (snd p))
                      (combine order (run_outcomes order w3)))
         ++ [lit "✅ All files uploaded successfully!"].
Proof.
  intros Hcfg Hcli Htasks.
  destruct (executor_map_run (length tasks) sched tasks w3 eq_refl)
    as (order & Hperm & Hrun).
  destruct (run_all_fields order w3) as [H1 H2].
  eexists; exists order. split; [|split; [exact Hperm|]].
  - unfold upload_to_s3. unfold bind at 1. rewrite Hcfg.
    unfold bind at 1. rewrite Hcli.
    unfold bind at 1. rewrite Htasks.
    unfold bind at 1. unfold upload_fn in Hrun. rewrite Hrun.
    unfold print. reflexivity.
  - cbn [s3_requests stdout add_stdout]. rewrite H1, H2.
    split; [reflexivity|]. now rewrite <- app_assoc.
Qed.

End Upload.

(** ** Loading the warehouse *)





Lemma file_paths_not_nil (d : FS.node) (p : list str) :
  In p (FS.file_paths d) -> p <> [].
Proof.
  destruct d as [data|es]; [contradiction|]. cbn [FS.file_paths]. intros H.
  apply in_app_or in H as [H|H].
  - apply in_map_iff in H as (name & <- & _). discriminate.
  - apply in_flat_map in H as (e & _ & H).
    apply in_map_iff in H as (cs & <- & _). discriminate.
Qed.

Section Load.

Context {ext : Externals}.

Variables database schema stage_name : str.

Hypothesis no_failure : forall q w, execute_error q w = None.





End Load.




Lemma sample_parse_config :
  parse_config (ext := Sample.ext) (lit "pipeline.cfg") sample_pipeline_world
  = (Ok sample_config, sample_pipeline_world).
Proof. vm_compute. reflexivity. Qed.

Lemma upload_failures_isolated_witness :
  parse_config (ext := Sample.ext) (lit "pipeline.cfg") sample_pipeline_world
  = (Ok sample_config, sample_pipeline_world)
  /\ aws_s3_client (ext := Sample.ext) (lit "pipeline.cfg") sample_pipeline_world
     = (Ok tt, sample_pipeline_world)
  /\ collect_upload_tasks (lit "output") (lit "bucket") (lit "dataset")
       sample_pipeline_world
     = (Ok sample_tasks, sample_pipeline_world)
  /\ exists w' order,
       upload_to_s3 (ext := Sample.ext) [1; 0; 0] (lit "pipeline.cfg")
         sample_pipeline_world = (Ok tt, w')
       /\ Permutation order sample_tasks
       /\ s3_requests w' = map request_of order
       /\ In (lit "❌ Error uploading output/business/bad.json: AccessDenied")
            (stdout w').
Proof.
  assert (H1 : aws_s3_client (ext := Sample.ext) (lit "pipeline.cfg")
                 sample_pipeline_world = (Ok tt, sample_pipeline_world))
    by (vm_compute; reflexivity).
  assert (H2 : collect_upload_tasks (lit "output") (lit "bucket") (lit "dataset")
                 sample_pipeline_world = (Ok sample_tasks, sample_pipeline_world))
    by (vm_compute; reflexivity).
  split; [exact sample_parse_config|]. split; [exact H1|]. split; [exact H2|].
  destruct (upload_failures_isolated (ext := Sample.ext) [1; 0; 0] (lit "pipeline.cfg")
              sample_pipeline_world sample_pipeline_world sample_pipeline_world
              sample_pipeline_world sample_config sample_tasks
              sample_parse_config H1 H2)
    as (w' & order & Hrun & Hperm & Hreq & Hout).
  exists w', order. split; [exact Hrun|]. split; [exact Hperm|]. split; [exact Hreq|].
  vm_compute in Hrun. injection Hrun as <-. vm_compute. tauto.
Defined.




(** ** The orchestrator *)

Lemma prefixb_app (a b : list str) : prefixb a (a ++ b) = true.
Proof. induction a; simpl; [reflexivity|]. now rewrite str_eqb_refl. Qed.

Lemma bind_cong {A B} (c : M A) (k k' : A -> M B) (w : world) :
  (forall a w1, k a w1 = k' a w1) -> bind c k w = bind c k' w.
Proof. intros H. unfold bind. destruct (c w) as [[a|e] w1]; [apply H|reflexivity]. Qed.

Section Orchestrate.

Context {ext : Externals}.

Lemma process_loop_filter (input_dir output_dir : str) (n : Z)
    (filenames : list str) (w : world) :
  for_each filenames (process_file input_dir output_dir n) w
  = for_each (filter (Str.endswith (lit ".json")) filenames)
      (fun filename =>
         print (lit "Processing file: " ++ filename) ;;
         split_json_file (PosixPath.join input_dir filename) output_dir n) w.
Proof.
  revert w; induction filenames as [|f fs IH]; intros w; [reflexivity|].
  cbn [for_each filter]. unfold process_file at 1.
  destruct (Str.endswith (lit ".json") f).
  - cbn [for_each]. apply bind_cong. intros _ w1. apply IH.
  - unfold bind at 1. unfold ret. apply IH.
Qed.

(** C10, amended.  The loop of [process_pipeline] calls the splitter for
    the entries named [*.json] and for no other; an entry with another
    name is passed over with no effect at all, so no batch file comes from
    it; [data_load] executes nothing for it either; and it is not among
    the upload tasks provided it does not lie under the output root. *)
Theorem pipeline_skips_other_files (input_dir output_dir : str) (n : Z)
    (filename : str) :
  Str.endswith (lit ".json") filename = false ->
  (forall filenames w,
     for_each filenames (process_file input_dir output_dir n) w
     = for_each (filter (Str.endswith (lit ".json")) filenames)
         (fun filename =>
            print (lit "Processing file: " ++ filename) ;;
            split_json_file (PosixPath.join input_dir filename) output_dir n) w)
  /\ (forall w, process_file input_dir output_dir n filename w = (Ok tt, w))
  /\ (forall database schema stage_name root w,
        load_file database schema stage_name root filename w = (Ok tt, w))
  /\ (forall bucket_name s3_prefix w d,
        FS.lookup (PosixPath.tail_list (getcwd w) output_dir) (root w) = Some d ->
        FS.wf d = true ->
        prefixb (PosixPath.tail_list (getcwd w) output_dir)
          (PosixPath.tail_list (getcwd w) (PosixPath.join input_dir filename))
        = false ->
        exists tasks,
          collect_upload_tasks output_dir bucket_name s3_prefix w = (Ok tasks, w)
          /\ forall t, In t tasks ->
               PosixPath.tail_list (getcwd w) (snd t)
               <> PosixPath.tail_list (getcwd w)
                    (PosixPath.join input_dir filename)).
Proof.
  intros Hf. split; [|split; [|split]].
  - intros filenames w. apply process_loop_filter.
  - intros w. unfold process_file. now rewrite Hf.
  - intros database schema stage_name root w. unfold load_file. now rewrite Hf.
  - intros bucket_name s3_prefix w d Hl Hwf Hpre.
    destruct (collect_upload_tasks_run output_dir bucket_name s3_prefix w d Hl Hwf)
      as [Hrun Hpaths].
    eexists. split; [exact Hrun|].
    intros t Ht E. apply in_map_iff in Ht as (cs & <- & Hcs).
    cbn [task_for snd] in E. rewrite (Hpaths cs Hcs) in E.
    rewrite <- E, prefixb_app in Hpre. discriminate Hpre.
Qed.

End Orchestrate.

Lemma pipeline_skips_other_files_witness :
  Str.endswith (lit ".json") (lit "notes.txt") = false
  /\ process_file (ext := Sample.ext) (lit "data") (lit "output") 2 (lit "notes.txt")
       sample_pipeline_world
     = (Ok tt, sample_pipeline_world).
Proof.
  split; [reflexivity|].
  exact (proj1 (proj2
           (pipeline_skips_other_files (ext := Sample.ext) (lit "data") (lit "output") 2
              (lit "notes.txt") eq_refl)) sample_pipeline_world).
Defined.

(** C10 as stated fails when the input directory is the output directory:
    the file [notes.txt] of the input directory is no [.json] file, and it
    is uploaded all the same. *)
Lemma pipeline_skips_other_files_counterexample :
  fst (parse_config (ext := Sample.ext) (lit "pipeline.cfg") shared_dir_world)
  = Ok {| input_dataset_path := lit "output";
          output_folder_path := lit "output";
          no_of_lines := 2;
          aws_access_key_id := lit "AKIA";
          aws_secret_access_key := lit "secret";
          aws_region := lit "eu-west-1";
          s3_bucket_name := lit "bucket";
          s3_bucket_path := lit "s3://bucket/dataset/";
          private_key_file_path := lit "keys/rsa_key.p8";
          raw_database := lit "RAW";
          raw_schema := lit "YELP";
          warehouse := lit "WH";
          account := lit "acct";
          role := lit "loader";
          user := lit "etl" |}
  /\ fst (listdir (lit "output") shared_dir_world) = Ok [lit "notes.txt"]
  /\ Str.endswith (lit ".json") (lit "notes.txt") = false
  /\ fst (process_pipeline (ext := Sample.ext) [] (lit "pipeline.cfg") shared_dir_world)
     = Ok tt
  /\ s3_requests
       (snd (process_pipeline (ext := Sample.ext) [] (lit "pipeline.cfg")
               shared_dir_world))
     = [ {| req_local := lit "output/notes.txt"; req_bucket := lit "bucket";
            req_key := lit "dataset/notes.txt" |} ].
Proof. repeat split; vm_compute; reflexivity. Qed.

(** * Further properties *)

(** ** What the file-system operations never create *)




(** ** The splitter's failures *)




Section SplitFailures.

Context {ext : Externals}.








End SplitFailures.






(** ** More of the splitter's contract *)



Section SplitMore.

Context {ext : Externals}.




End SplitMore.




(** ** What a computation leaves unchanged *)

Section Keeps.

Variable R : world -> world -> Prop.
Hypothesis R_refl : forall w, R w w.
Hypothesis R_trans : forall w1 w2 w3, R w1 w2 -> R w2 w3 -> R w1 w3.

Lemma keeps_ret {A} (a : A) : keeps R (ret a).
Proof. intros w. apply R_refl. Qed.

Lemma keeps_raise {A} (e : exn) : keeps R (@raise A e).
Proof. intros w. apply R_refl. Qed.

Lemma keeps_bind {A B} (c : M A) (k : A -> M B) :
  keeps R c -> (forall a, keeps R (k a)) -> keeps R (bind c k).
Proof.
  intros Hc Hk w. unfold bind. specialize (Hc w).
  destruct (c w) as [[a|e] w1]; simpl in *; [|assumption].
  eapply R_trans; [exact Hc|apply Hk].
Qed.

Lemma keeps_try {A} (c : M A) (h : exn -> M A) :
  keeps R c -> (forall e, keeps R (h e)) -> keeps R (try_except c h).
Proof.
  intros Hc Hh w. unfold try_except. specialize (Hc w).
  destruct (c w) as [[a|e] w1]; simpl in *; [assumption|].
  eapply R_trans; [exact Hc|apply Hh].
Qed.

Lemma keeps_of_result {A} (r : result A) : keeps R (of_result r).
Proof. intros w. apply R_refl. Qed.

Lemma keeps_of_option {A} (e : exn) (o : option A) : keeps R (of_option e o).
Proof. destruct o; [apply keeps_ret|apply keeps_raise]. Qed.

Lemma keeps_for_each {A} (l : list A) (body : A -> M unit) :
  (forall x, keeps R (body x)) -> keeps R (for_each l body).
Proof.
  intros H. induction l; simpl; [apply keeps_ret|].
  apply keeps_bind; auto.
Qed.

Lemma keeps_map_m {A B} (f : A -> M B) (l : list A) :
  (forall x, keeps R (f x)) -> keeps R (map_m f l).
Proof.
  intros H. induction l; simpl; [apply keeps_ret|].
  apply keeps_bind; [apply H|]. intros y.
  apply keeps_bind; [assumption|]. intros ys. apply keeps_ret.
Qed.

Lemma keeps_resolve (path : str) : keeps R (resolve path).
Proof. intros w. apply R_refl. Qed.

Lemma keeps_fs_query {A} (op : FS.node -> result A) : keeps R (fs_query op).
Proof. intros w. apply R_refl. Qed.

Lemma keeps_read_text (path : str) : keeps R (read_text path).
Proof.
  apply keeps_bind; [apply keeps_resolve|]. intros cs. apply keeps_fs_query.
Qed.

Lemma keeps_listdir (path : str) : keeps R (listdir path).
Proof.
  apply keeps_bind; [apply keeps_resolve|]. intros cs. apply keeps_fs_query.
Qed.

Lemma keeps_path_exists (path : str) : keeps R (path_exists path).
Proof.
  apply keeps_bind; [apply keeps_resolve|]. intros cs. apply keeps_fs_query.
Qed.

Lemma keeps_os_walk (top : str) : keeps R (os_walk top).
Proof.
  apply keeps_bind; [apply keeps_resolve|]. intros cs. apply keeps_fs_query.
Qed.

Context {ext : Externals}.

Lemma keeps_config_get sections section option :
  keeps R (config_get sections section option).
Proof.
  unfold config_get. destruct (str_assoc section sections) as [options|];
    [|apply keeps_raise].
  destruct (str_assoc option options); [apply keeps_ret|apply keeps_raise].
Qed.

Lemma keeps_parse_config (config_path : str) : keeps R (parse_config config_path).
Proof.
  unfold parse_config.
  apply keeps_bind.
  { unfold config_read. apply keeps_try.
    - apply keeps_bind; [apply keeps_read_text|]. intros text. apply keeps_of_result.
    - intros e. destruct e; (apply keeps_ret || apply keeps_raise). }
  intros sections.
  repeat (apply keeps_bind;
          [ first [ apply keeps_config_get
                  | unfold config_getint; apply keeps_bind;
                    [apply keeps_config_get|intros v; apply keeps_of_option] ]
          | intros ? ]).
  apply keeps_ret.
Qed.

Lemma keeps_upload_task (local_dir bucket_name s3_prefix root file : str) :
  keeps R (upload_task local_dir bucket_name s3_prefix root file).
Proof.
  unfold upload_task. apply keeps_bind.
  - intros w. apply R_refl.
  - intros rel. apply keeps_ret.
Qed.

Lemma keeps_collect_upload_tasks (local_dir bucket_name s3_prefix : str) :
  keeps R (collect_upload_tasks local_dir bucket_name s3_prefix).
Proof.
  unfold collect_upload_tasks. apply keeps_bind; [apply keeps_os_walk|].
  intros walked. apply keeps_bind.
  - apply keeps_map_m. intros [[root dirs] files].
    apply keeps_map_m. intros file. apply keeps_upload_task.
  - intros per_root. apply keeps_ret.
Qed.

Lemma keeps_aws_s3_client (config_path : str) : keeps R (aws_s3_client config_path).
Proof.
  unfold aws_s3_client. apply keeps_try.
  - apply keeps_bind; [apply keeps_parse_config|]. intros cfg w.
    destruct (boto3_client_error cfg w); apply R_refl.
  - intros e. destruct e; apply keeps_raise.
Qed.

End Keeps.

Section ReadOnly.

Context {ext : Externals}.

(** [parse_config] only reads: whatever it returns or raises, the world is
    as it was. *)
Theorem parse_config_reads_only (config_path : str) (w : world) :
  snd (parse_config config_path w) = w.
Proof.
  symmetry. apply (keeps_parse_config eq); [reflexivity|].
  intros w1 w2 w3 -> ->. reflexivity.
Qed.

End ReadOnly.

Lemma upload_footprint_refl (w : world) : upload_footprint w w.
Proof. repeat split. Qed.

Lemma upload_footprint_trans (w1 w2 w3 : world) :
  upload_footprint w1 w2 -> upload_footprint w2 w3 -> upload_footprint w1 w3.
Proof. intros [[A B] C] [[D E] F]. repeat split; congruence. Qed.

Lemma load_footprint_refl (w : world) : load_footprint w w.
Proof. repeat split. Qed.

Lemma load_footprint_trans (w1 w2 w3 : world) :
  load_footprint w1 w2 -> load_footprint w2 w3 -> load_footprint w1 w3.
Proof. intros [[A B] C] [[D E] F]. repeat split; congruence. Qed.

Lemma no_io_refl (w : world) : no_io w w.
Proof. split; reflexivity. Qed.

Lemma no_io_trans (w1 w2 w3 : world) : no_io w1 w2 -> no_io w2 w3 -> no_io w1 w3.
Proof. intros [A B] [C D]. split; congruence. Qed.

Section Footprints.

Context {ext : Externals}.

Lemma upload_to_s3_footprint (sched : list nat) (config_path : str) :
  keeps upload_footprint (upload_to_s3 sched config_path).
Proof.
  pose proof upload_footprint_refl as Hr. pose proof upload_footprint_trans as Ht.
  unfold upload_to_s3.
  apply keeps_bind; [assumption|apply keeps_parse_config; assumption|]. intros cfg.
  apply keeps_bind; [assumption|apply keeps_aws_s3_client; assumption|]. intros _.
  apply keeps_bind; [assumption|apply keeps_collect_upload_tasks; assumption|].
  intros tasks.
  apply keeps_bind; [assumption| |intros _ w; repeat split].
  generalize (length tasks) as n. intros n. revert sched tasks.
  induction n as [|n IH]; intros sched tasks; cbn [executor_map];
    [apply keeps_ret; assumption|].
  destruct (nth_error tasks (hd 0 sched mod length tasks)) as [[[b k] l]|];
    [|apply keeps_ret; assumption].
  apply keeps_bind; [assumption| |intros _; apply IH].
  intros w. unfold run_work_item, upload_file_to_s3, try_except, bind, s3_upload_file.
  destruct (s3_upload_error _ w) as [e|]; [|repeat split].
  destruct (is_Exception e); repeat split.
Qed.

Lemma snow_conn_footprint (config_path : str) :
  keeps load_footprint (snow_conn config_path).
Proof.
  pose proof load_footprint_refl as Hr. pose proof load_footprint_trans as Ht.
  unfold snow_conn. apply keeps_try; [assumption| |].
  - apply keeps_bind; [assumption|apply keeps_parse_config; assumption|]. intros cfg.
    apply keeps_bind; [assumption|apply keeps_read_text; assumption|]. intros key.
    apply keeps_bind; [assumption|apply keeps_of_result; assumption|]. intros der.
    apply keeps_bind; [assumption| |intros _ w; repeat split].
    intros w. destruct (snowflake_connect_error cfg der w); repeat split.
  - intros e. destruct e; apply keeps_raise; assumption.
Qed.

Lemma execute_footprint (query : str) : keeps load_footprint (execute query).
Proof. intros w. unfold execute. destruct (execute_error query w); repeat split. Qed.

Lemma data_load_footprint (config_path : str) :
  keeps load_footprint (data_load config_path).
Proof.
  pose proof load_footprint_refl as Hr. pose proof load_footprint_trans as Ht.
  unfold data_load.
  apply keeps_bind; [assumption|apply keeps_parse_config; assumption|]. intros cfg.
  apply keeps_bind; [assumption|apply snow_conn_footprint|]. intros _.
  apply keeps_bind; [assumption|apply execute_footprint|]. intros _.
  apply keeps_bind; [assumption|intros w; repeat split|]. intros _.
  apply keeps_bind; [assumption|apply keeps_os_walk; assumption|]. intros walked.
  apply keeps_bind; [assumption| |intros _ w; repeat split].
  apply keeps_for_each; [assumption..|]. intros [[root dirs] files].
  apply keeps_for_each; [assumption..|]. intros file.
  unfold load_file. destruct (Str.endswith _ file); [|apply keeps_ret; assumption].
  apply keeps_bind; [assumption|apply execute_footprint|]. intros _.
  apply keeps_bind; [assumption|intros w; repeat split|]. intros _.
  apply keeps_bind; [assumption|apply execute_footprint|]. intros _.
  intros w; repeat split.
Qed.

Lemma split_json_file_no_io (input_file output_dir : str) (B : Z) :
  keeps no_io (split_json_file input_file output_dir B).
Proof.
  pose proof no_io_refl as Hr. pose proof no_io_trans as Ht.
  assert (Hupd : forall op, keeps no_io (fs_update op)).
  { intros op w. unfold fs_update. destruct (op (root w)); split; reflexivity. }
  unfold split_json_file.
  apply keeps_bind; [assumption|apply keeps_path_exists; assumption|]. intros present.
  apply keeps_bind; [assumption| |intros _].
  { destruct present; [|apply keeps_ret; assumption].
    apply keeps_bind; [assumption|apply keeps_resolve; assumption|]. intros cs. apply Hupd. }
  apply keeps_bind; [assumption| |intros _].
  { apply keeps_bind; [assumption|apply keeps_resolve; assumption|]. intros cs. apply Hupd. }
  apply keeps_bind; [assumption|apply keeps_read_text; assumption|]. intros text.
  apply keeps_bind; [assumption| |intros data].
  { apply keeps_map_m; [assumption..|]. intros line. apply keeps_of_option; assumption. }
  apply keeps_bind; [assumption|apply keeps_of_result; assumption|]. intros indices.
  generalize 1 at 1 as fc. induction indices as [|i rest IH]; intros fc; cbn [split_loop];
    [apply keeps_ret; assumption|].
  apply keeps_bind; [assumption| |intros _; apply IH].
  apply keeps_bind; [assumption|apply keeps_resolve; assumption|]. intros cs. apply Hupd.
Qed.

(** [upload_to_s3] never touches the file system, and executes no statement:
    whatever happens, it changes only the list of requested uploads and the
    printed lines. *)
Theorem upload_changes_requests_only (sched : list nat) (config_path : str)
    (w : world) :
  root (snd (upload_to_s3 sched config_path w)) = root w
  /\ cwd_tail (snd (upload_to_s3 sched config_path w)) = cwd_tail w
  /\ sql_executed (snd (upload_to_s3 sched config_path w)) = sql_executed w.
Proof.
  destruct (upload_to_s3_footprint sched config_path w) as [[A B] C]. auto.
Qed.

(** [data_load] never touches the file system and requests no upload:
    whatever happens, it changes only the list of executed statements and
    the printed lines. *)
Theorem load_changes_statements_only (config_path : str) (w : world) :
  root (snd (data_load config_path w)) = root w
  /\ cwd_tail (snd (data_load config_path w)) = cwd_tail w
  /\ s3_requests (snd (data_load config_path w)) = s3_requests w.
Proof.
  destruct (data_load_footprint config_path w) as [[A B] C]. auto.
Qed.

(** When splitting one of the input files fails, [process_pipeline] stops
    with that error: nothing is uploaded and no statement is executed. *)
Theorem pipeline_stops_on_split_failure (sched : list nat) (config_path : str)
    (w w1 w2 w3 : world) (config : config) (filenames : list str) (e : exn) :
  parse_config config_path w = (Ok config, w1) ->
  listdir (input_dataset_path config) w1 = (Ok filenames, w2) ->
  for_each filenames
    (process_file (input_dataset_path config) (output_folder_path config)
       (no_of_lines config)) w2 = (Raise e, w3) ->
  process_pipeline sched config_path w = (Raise e, w3)
  /\ s3_requests w3 = s3_requests w
  /\ sql_executed w3 = sql_executed w.
Proof.
  intros Hcfg Hls Hloop. split.
  - unfold process_pipeline. unfold bind at 1. rewrite Hcfg.
    unfold bind at 1. rewrite Hls. unfold bind at 1. rewrite Hloop. reflexivity.
  - assert (H1 : no_io w w1).
    { pose proof (keeps_parse_config no_io no_io_refl no_io_trans config_path w) as H.
      now rewrite Hcfg in H. }
    assert (H2 : no_io w1 w2).
    { pose proof (keeps_listdir no_io no_io_refl no_io_trans
                    (input_dataset_path config) w1) as H.
      now rewrite Hls in H. }
    assert (H3 : no_io w2 w3).
    { assert (H : keeps no_io
                    (for_each filenames
                       (process_file (input_dataset_path config)
                          (output_folder_path config) (no_of_lines config)))).
      { apply keeps_for_each; [apply no_io_refl|apply no_io_trans|]. intros f.
        unfold process_file. destruct (Str.endswith _ f);
          [|apply keeps_ret; apply no_io_refl].
        apply keeps_bind; [apply no_io_trans| |].
        - intros w0. split; reflexivity.
        - intros _. apply split_json_file_no_io. }
      specialize (H w2). now rewrite Hloop in H. }
    destruct (no_io_trans _ _ _ (no_io_trans _ _ _ H1 H2) H3). auto.
Qed.

End Footprints.

Lemma pipeline_stops_on_split_failure_witness :
  parse_config (ext := Sample.ext) (lit "pipeline.cfg") sample_world_bad_input
  = (Ok sample_config, sample_world_bad_input)
  /\ listdir (lit "data") sample_world_bad_input
     = (Ok [lit "yelp_business.json"], sample_world_bad_input)
  /\ fst (process_pipeline (ext := Sample.ext) [] (lit "pipeline.cfg")
            sample_world_bad_input) = Raise JSONDecodeError
  /\ s3_requests
       (snd (process_pipeline (ext := Sample.ext) [] (lit "pipeline.cfg")
               sample_world_bad_input)) = []
  /\ sql_executed
       (snd (process_pipeline (ext := Sample.ext) [] (lit "pipeline.cfg")
               sample_world_bad_input)) = [].
Proof.
  assert (H1 : parse_config (ext := Sample.ext) (lit "pipeline.cfg")
                 sample_world_bad_input = (Ok sample_config, sample_world_bad_input))
    by (vm_compute; reflexivity).
  assert (H2 : listdir (lit "data") sample_world_bad_input
               = (Ok [lit "yelp_business.json"], sample_world_bad_input))
    by (vm_compute; reflexivity).
  assert (H3 : for_each [lit "yelp_business.json"]
                 (process_file (ext := Sample.ext) (input_dataset_path sample_config)
                    (output_folder_path sample_config) (no_of_lines sample_config))
                 sample_world_bad_input
               = (Raise JSONDecodeError,
                  snd (for_each [lit "yelp_business.json"]
                         (process_file (ext := Sample.ext)
                            (input_dataset_path sample_config)
                            (output_folder_path sample_config)
                            (no_of_lines sample_config))
                         sample_world_bad_input)))
    by (vm_compute; reflexivity).
  split; [exact H1|]. split; [exact H2|].
  destruct (pipeline_stops_on_split_failure (ext := Sample.ext) [] (lit "pipeline.cfg")
              _ _ _ _ _ _ _ H1 H2 H3) as (Hrun & Hreq & Hsql).
  rewrite Hrun. cbn [fst snd]. split; [reflexivity|]. split; [exact Hreq|exact Hsql].
Defined.

(** ** Settings, connections and their errors *)

Section Settings.

Context {ext : Externals}.


(** A settings path that names no regular file is passed over by
    [config.read]: [parse_config] raises [NoSectionError] for [STAGING], the
    first section it asks for, and no file-system error. *)
Theorem parse_config_unreadable_file (config_path : str) (w : world) :
  (forall data,
     FS.lookup (PosixPath.tail_list (getcwd w) config_path) (root w)
     <> Some (FS.File data)) ->
  parse_config config_path w = (Raise (NoSectionError (lit "STAGING")), w).
Proof.
  intros H. unfold parse_config. unfold bind at 1.
  assert (Hread : config_read config_path w = (Ok [], w)).
  { unfold config_read, try_except, bind, read_text, bind, resolve, fs_query,
      FS.read_file.
    destruct (FS.lookup _ (root w)) as [[data|es]|] eqn:E; try reflexivity.
    exfalso. now apply (H data). }
  rewrite Hread. reflexivity.
Qed.


(** [aws_s3_client] turns a botocore error into a plain [Exception] whose
    text starts with [Error creating S3 client: ]. *)
Theorem aws_s3_client_wraps_boto_error (config_path : str) (w w1 : world)
    (config : config) (msg : str) :
  parse_config config_path w = (Ok config, w1) ->
  boto3_client_error config w1 = Some (BotoError msg) ->
  aws_s3_client config_path w
  = (Raise (Exception (lit "Error creating S3 client: " ++ msg)), w1).
Proof.
  intros Hcfg Hb. unfold aws_s3_client, try_except, bind.
  now rewrite Hcfg, Hb.
Qed.



(** When the stage-creation statement fails, [data_load] stops with that
    error: the statement is the only one attempted. *)
Theorem data_load_stage_failure (config_path : str) (w w1 w2 : world)
    (config : config) (e : exn) :
  parse_config config_path w = (Ok config, w1) ->
  snow_conn config_path w1 = (Ok tt, w2) ->
  execute_error
    (create_stage_query_of
       (raw_database config ++ lit "." ++ raw_schema config ++ lit ".S3_STAGE")
       (Str.rstrip "/" (s3_bucket_path config))
       (aws_access_key_id config) (aws_secret_access_key config)) w2 = Some e ->
  exists w',
    data_load config_path w = (Raise e, w')
    /\ sql_executed w'
       = sql_executed w2
         ++ [create_stage_query_of
               (raw_database config ++ lit "." ++ raw_schema config ++ lit ".S3_STAGE")
               (Str.rstrip "/" (s3_bucket_path config))
               (aws_access_key_id config) (aws_secret_access_key config)]
    /\ stdout w' = stdout w2.
Proof.
  intros Hcfg Hconn He. eexists. split.
  - unfold data_load. unfold bind at 1. rewrite Hcfg.
    unfold bind at 1. rewrite Hconn.
    unfold bind at 1. unfold execute at 1. rewrite He. reflexivity.
  - split; reflexivity.
Qed.

(** With no output directory there is nothing to upload: [upload_to_s3]
    requests no upload and still prints its success message. *)
Theorem upload_without_output_directory (sched : list nat) (config_path : str)
    (w w1 w2 : world) (config : config) :
  parse_config config_path w = (Ok config, w1) ->
  aws_s3_client config_path w1 = (Ok tt, w2) ->
  FS.lookup (PosixPath.tail_list (getcwd w2) (output_folder_path config)) (root w2)
  = None ->
  upload_to_s3 sched config_path w
  = (Ok tt, add_stdout (lit "✅ All files uploaded successfully!") w2).
Proof.
  intros Hcfg Hcli Hl. unfold upload_to_s3.
  unfold bind at 1. rewrite Hcfg. unfold bind at 1. rewrite Hcli.
  unfold bind at 1. unfold collect_upload_tasks, bind, os_walk, bind, resolve,
    fs_query. rewrite Hl. reflexivity.
Qed.


End Settings.

Lemma parse_config_unreadable_file_witness :
  parse_config (ext := Sample.ext) (lit "pipeline.cfg") sample_upload_world
  = (Raise (NoSectionError (lit "STAGING")), sample_upload_world).
Proof.
  apply (parse_config_unreadable_file (ext := Sample.ext)).
  intros data H. vm_compute in H. discriminate H.
Defined.


Lemma aws_s3_client_wraps_boto_error_witness :
  aws_s3_client (ext := refusing_ext) (lit "pipeline.cfg") sample_pipeline_world
  = (Raise (Exception (lit "Error creating S3 client: NoRegionError")),
     sample_pipeline_world).
Proof.
  apply (aws_s3_client_wraps_boto_error (ext := refusing_ext) (lit "pipeline.cfg")
           sample_pipeline_world sample_pipeline_world sample_config
           (lit "NoRegionError"));
    vm_compute; reflexivity.
Defined.



Lemma data_load_stage_failure_witness :
  exists w',
    data_load (ext := failing_sql_ext) (lit "pipeline.cfg") sample_pipeline_world
    = (Raise (SnowflakeError (lit "not authorized")), w')
    /\ length (sql_executed w') = 1
    /\ stdout w' = [lit "Snowflake connection established."].
Proof.
  destruct (data_load_stage_failure (ext := failing_sql_ext) (lit "pipeline.cfg")
              sample_pipeline_world sample_pipeline_world
              (add_stdout (lit "Snowflake connection established.")
                 sample_pipeline_world)
              sample_config (SnowflakeError (lit "not authorized"))
              eq_refl eq_refl eq_refl)
    as (w' & H1 & H2 & H3).
  exists w'. split; [exact H1|]. split.
  - rewrite H2. reflexivity.
  - rewrite H3. reflexivity.
Defined.

Lemma upload_without_output_directory_witness :
  upload_to_s3 (ext := Sample.ext) [] (lit "pipeline.cfg") sample_world_no_output
  = (Ok tt,
     add_stdout (lit "✅ All files uploaded successfully!") sample_world_no_output).
Proof.
  apply (upload_without_output_directory (ext := Sample.ext) [] (lit "pipeline.cfg")
           sample_world_no_output sample_world_no_output sample_world_no_output
           sample_config);
    vm_compute; reflexivity.
Defined.


(** ** A failing statement *)

Section FailingStatement.

Context {ext : Externals}.
Variable err : str -> option exn.
Hypothesis Herr : forall q w, execute_error q w = err q.








End FailingStatement.




(** ** Keys *)

Lemma rstrip_last (c x : ascii) (t : str) (k : nat) :
  Ascii.eqb x c = false -> Str.rstrip c (t ++ [x] ++ repeat c k) = t ++ [x].
Proof.
  intros Hx. unfold Str.rstrip.
  rewrite app_assoc, rev_app_distr, rev_repeat, lstrip_repeat.
  rewrite rev_app_distr. cbn [rev app]. rewrite (lstrip_other _ _ _ Hx).
  change (x :: rev t) with ([x] ++ rev t).
  rewrite rev_app_distr, rev_involutive. reflexivity.
Qed.

Lemma sep_free_last (s : str) :
  s <> [] -> sep_free s ->
  exists t x, s = t ++ [x] /\ Ascii.eqb x PosixPath.sep = false.
Proof.
  intros Hs Hf. destruct (exists_last Hs) as (t & x & ->). exists t, x.
  split; [reflexivity|]. unfold sep_free in Hf.
  rewrite existsb_app in Hf. apply orb_false_elim in Hf as [_ Hf].
  cbn [existsb] in Hf. rewrite orb_false_r in Hf.
  now rewrite Ascii.eqb_sym.
Qed.

Lemma join_split (c : ascii) (s : str) : Str.join [c] (Str.split c s) = s.
Proof.
  induction s as [|x s IH]; [reflexivity|]. cbn [Str.split].
  destruct (Ascii.eqb x c) eqn:E.
  - apply Ascii.eqb_eq in E. subst x.
    rewrite (join_cons _ _ _ (split_not_nil c s)), IH. reflexivity.
  - destruct (Str.split c s) as [|w ws] eqn:Es; [now destruct (split_not_nil c s)|].
    rewrite <- IH. destruct ws; reflexivity.
Qed.

(** The prefix comes back out of a bucket path [scheme://bucket/prefix],
    whatever the number of slashes after it. *)
Theorem s3_prefix_recovered (scheme bucket prefix : str) (k : nat) :
  sep_free scheme ->
  bucket <> [] ->
  sep_free bucket ->
  Str.endswith (lit "/") prefix = false ->
  s3_prefix_of (scheme ++ lit "://" ++ bucket ++ lit "/" ++ prefix ++ repeat "/"%char k)
  = prefix.
Proof.
  intros Hs Hb Hbf Hp. unfold s3_prefix_of.
  assert (Hcolon : existsb (Ascii.eqb "/") (scheme ++ lit ":") = false).
  { rewrite existsb_app. unfold sep_free in Hs.
    change PosixPath.sep with "/"%char in Hs. now rewrite Hs. }
  assert (Hbf' : existsb (Ascii.eqb "/") bucket = false) by exact Hbf.
  destruct prefix as [|p0 prefix'] eqn:Ep.
  - destruct (sep_free_last bucket Hb Hbf) as (t & x & -> & Hx).
    change (scheme ++ lit "://" ++ (t ++ [x]) ++ lit "/" ++ [] ++ repeat "/"%char k)
      with (scheme ++ lit "://" ++ (t ++ [x]) ++ repeat "/"%char (S k)).
    replace (scheme ++ lit "://" ++ (t ++ [x]) ++ repeat "/"%char (S k))
      with ((scheme ++ lit "://" ++ t) ++ [x] ++ repeat "/"%char (S k))
      by now rewrite <- !app_assoc.
    rewrite (rstrip_last _ _ _ _ Hx).
    replace ((scheme ++ lit "://" ++ t) ++ [x])
      with ((scheme ++ lit ":") ++ "/"%char :: [] ++ "/"%char :: (t ++ [x]))
      by (rewrite <- !app_assoc; reflexivity).
    rewrite !split_app_sep, (split_no_sep _ _ Hcolon), (split_no_sep _ _ Hbf').
    reflexivity.
  - rewrite <- Ep in *.
    assert (Hne : prefix <> []) by (rewrite Ep; discriminate).
    destruct (exists_last Hne) as (t & x & Et).
    assert (Hx : Ascii.eqb x "/" = false).
    { rewrite Et in Hp. change (lit "/") with ["/"%char] in Hp.
      rewrite endswith_char_app in Hp by discriminate.
      cbn in Hp. rewrite andb_true_r in Hp. now rewrite Ascii.eqb_sym. }
    rewrite Et at 1.
    replace (scheme ++ lit "://" ++ bucket ++ lit "/" ++ (t ++ [x]) ++ repeat "/"%char k)
      with ((scheme ++ lit "://" ++ bucket ++ lit "/" ++ t) ++ [x] ++ repeat "/"%char k)
      by now rewrite <- !app_assoc.
    rewrite (rstrip_last _ _ _ _ Hx).
    replace ((scheme ++ lit "://" ++ bucket ++ lit "/" ++ t) ++ [x])
      with ((scheme ++ lit ":") ++ "/"%char :: [] ++ "/"%char :: bucket
              ++ "/"%char :: prefix)
      by (rewrite Et, <- !app_assoc; reflexivity).
    rewrite !split_app_sep, (split_no_sep _ _ Hcolon), (split_no_sep _ _ Hbf').
    cbn [Str.split app Str.slice_from skipn].
    apply join_split.
Qed.

Lemma replace_absent (c : ascii) (new s : str) :
  existsb (Ascii.eqb c) s = false -> Str.replace [c] new s = s.
Proof.
  unfold Str.replace. induction s as [|x s IH]; [reflexivity|].
  cbn [existsb Str.replace_from Str.startswith]. intros H.
  apply orb_false_elim in H as [Hx Hs]. rewrite Hx. cbn [andb].
  now rewrite (IH Hs).
Qed.

Lemma existsb_join (c : ascii) (sep : str) (l : list str) :
  existsb (Ascii.eqb c) sep = false ->
  Forall (fun w => existsb (Ascii.eqb c) w = false) l ->
  existsb (Ascii.eqb c) (Str.join sep l) = false.
Proof.
  intros Hsep Hl. induction Hl as [|w l Hw Hl IH]; [reflexivity|].
  destruct l as [|w' l]; [exact Hw|].
  rewrite join_cons by discriminate. now rewrite !existsb_app, Hw, Hsep, IH.
Qed.

Lemma lstrip_app_other (c x : ascii) (a b : str) :
  Ascii.eqb x c = false ->
  Str.lstrip c (a ++ x :: b) = Str.lstrip c a ++ x :: b.
Proof.
  intros Hx. induction a as [|y a IH]; cbn [app Str.lstrip].
  - now rewrite Hx.
  - destruct (Ascii.eqb y c); [exact IH|reflexivity].
Qed.

(** The key of a path is the path's text after a fixed head. *)
Lemma key_of_path_head (s3_prefix : str) (cs : list str) :
  cs <> [] ->
  Forall (fun c => FS.valid_name c = true) cs ->
  Forall backslash_free cs ->
  key_of_path s3_prefix cs
  = Str.lstrip "/" (s3_prefix ++ lit "/") ++ Str.join (lit "/") cs.
Proof.
  intros Hne Hv Hb. unfold key_of_path, s3_key_of, backslash.
  rewrite replace_absent by (apply existsb_join; [reflexivity|exact Hb]).
  assert (Hj : exists x r, Str.join (lit "/") cs = x :: r
                           /\ Ascii.eqb x "/" = false).
  { destruct cs as [|c cs]; [now destruct Hne|].
    inversion Hv as [|? ? Hc _]; subst.
    apply valid_name_inv in Hc as (Hc & _ & _ & Hf).
    destruct c as [|x c]; [now destruct Hc|].
    exists x. unfold sep_free in Hf. cbn [existsb] in Hf.
    apply orb_false_elim in Hf as [Hf _]. rewrite Ascii.eqb_sym in Hf.
    destruct cs; [now exists c|]. rewrite join_cons by discriminate.
    now eexists. }
  destruct Hj as (x & r & -> & Hx).
  rewrite app_assoc. now apply lstrip_app_other.
Qed.

(** Two different files below the output root get different keys, as long
    as no name on their paths holds a backslash. *)
Theorem upload_keys_distinct (s3_prefix : str) (d : FS.node) (p1 p2 : list str) :
  FS.wf d = true ->
  In p1 (FS.file_paths d) ->
  In p2 (FS.file_paths d) ->
  Forall backslash_free p1 ->
  Forall backslash_free p2 ->
  p1 <> p2 ->
  key_of_path s3_prefix p1 <> key_of_path s3_prefix p2.
Proof.
  intros Hwf H1 H2 Hb1 Hb2 Hne Hk. apply Hne. clear Hne.
  pose proof (file_paths_valid d p1 Hwf H1) as Hv1.
  pose proof (file_paths_valid d p2 Hwf H2) as Hv2.
  pose proof (file_paths_not_nil d p1 H1) as Hn1.
  pose proof (file_paths_not_nil d p2 H2) as Hn2.
  rewrite (key_of_path_head _ _ Hn1 Hv1 Hb1), (key_of_path_head _ _ Hn2 Hv2 Hb2) in Hk.
  apply app_inv_head in Hk.
  assert (Hs : forall p, Forall (fun c => FS.valid_name c = true) p ->
                         Forall (fun w => existsb (Ascii.eqb "/") w = false) p).
  { intros p Hp. eapply Forall_impl; [|exact Hp].
    intros c Hc. now apply valid_name_inv in Hc as (_ & _ & _ & Hc). }
  rewrite <- (split_join "/" p1 Hn1 (Hs _ Hv1)), <- (split_join "/" p2 Hn2 (Hs _ Hv2)).
  change ["/"%char] with (lit "/"). now rewrite Hk.
Qed.

(** With a backslash in a name the keys can collide: the file [b] in the
    directory [a] and the file [a\b] get the same key. *)
Example upload_keys_collide_with_backslash :
  FS.wf sample_backslash_dir = true
  /\ In [lit "a"; lit "b"] (FS.file_paths sample_backslash_dir)
  /\ In ["a"%char :: "092"%char :: lit "b"] (FS.file_paths sample_backslash_dir)
  /\ key_of_path (lit "dataset") [lit "a"; lit "b"]
     = key_of_path (lit "dataset") ["a"%char :: "092"%char :: lit "b"].
Proof.
  split; [reflexivity|]. split; [right; left; reflexivity|].
  split; [left; reflexivity|reflexivity].
Qed.

Lemma s3_prefix_recovered_witness :
  s3_prefix_of (lit "s3" ++ lit "://" ++ lit "bucket" ++ lit "/" ++ lit "dataset/yelp"
                  ++ repeat "/"%char 2)
  = lit "dataset/yelp".
Proof.
  apply (s3_prefix_recovered (lit "s3") (lit "bucket") (lit "dataset/yelp") 2);
    [reflexivity|discriminate|reflexivity|reflexivity].
Defined.

Lemma upload_keys_distinct_witness :
  key_of_path (lit "dataset") [lit "business"; lit "business_2_part_1.json"]
  <> key_of_path (lit "dataset") [lit "checkin"; lit "checkin_1_part_1.json"].
Proof.
  apply (upload_keys_distinct (lit "dataset") (FS.Dir sample_output)).
  - reflexivity.
  - left; reflexivity.
  - right; right; left; reflexivity.
  - repeat constructor.
  - repeat constructor.
  - discriminate.
Defined.
